(** * MCP DevOps ClearCase: the tool handlers of [src/lib/server.js]

    A shallow embedding of the server's sixteen tool handlers and of the
    helper [executeClearToolCommand] they share, with the properties of
    the argument vectors they build, of the responses they return and of
    the way failures are reported.

    Strings are JavaScript strings: finite sequences of UTF-16 code
    units.  A child process is described by what the helper observes of
    it: the chunks arriving on its two streams, and the exit code carried
    by its [close] event.  A child whose launch fails without a [close]
    event is outside this description. *)

From Stdlib Require Import List String Ascii NArith ZArith Bool Arith Lia.
From Stdlib Require Import DecimalString.
Import ListNotations.

Set Implicit Arguments.

(** ** JavaScript strings *)

Module Js.

(** A string is the list of its UTF-16 code units. *)
Definition str := list N.

(** A string literal of the source (all of them are ASCII). *)
Definition lit (s : string) : str :=
  map N_of_ascii (list_ascii_of_string s).

Arguments lit : simpl never.

(** A string is truthy when it is not empty. *)
Definition truthy (s : str) : bool :=
  match s with [] => false | _ :: _ => true end.

(** ECMAScript [WhiteSpace] and [LineTerminator] code points, the ones
    [String.prototype.trim] removes. *)
Definition is_white_space (c : N) : bool :=
  ((9 <=? c) && (c <=? 13)            (* TAB LF VT FF CR *)
   || (c =? 32)                       (* SPACE *)
   || (c =? 160)                      (* NO-BREAK SPACE *)
   || (c =? 5760)                     (* U+1680 *)
   || ((8192 <=? c) && (c <=? 8202))  (* U+2000 .. U+200A *)
   || (c =? 8232) || (c =? 8233)      (* U+2028 U+2029 *)
   || (c =? 8239)                     (* U+202F *)
   || (c =? 8287)                     (* U+205F *)
   || (c =? 12288)                    (* U+3000 *)
   || (c =? 65279))%N.                (* U+FEFF *)

Fixpoint trimStart (s : str) : str :=
  match s with
  | c :: s' => if is_white_space c then trimStart s' else s
  | [] => []
  end.

Definition trimEnd (s : str) : str := rev (trimStart (rev s)).

(** [s.trim()]: white space removed at both ends. *)
Definition trim (s : str) : str := trimEnd (trimStart s).

(** [l.join(sep)]. *)
Fixpoint join (sep : str) (l : list str) : str :=
  match l with
  | [] => []
  | [x] => x
  | x :: rest => x ++ sep ++ join sep rest
  end.

(** [s.split(sep)] for a separator of one code unit: the pieces between
    the occurrences of [sep]; never the empty array. *)
Fixpoint split (sep : N) (s : str) : list str :=
  match s with
  | [] => [[]]
  | c :: s' =>
      if (c =? sep)%N then [] :: split sep s'
      else match split sep s' with
           | piece :: pieces => (c :: piece) :: pieces
           | [] => [[c]]
           end
  end.

(** [s.replace(/c/g, by)] for a pattern of one literal code unit. *)
Fixpoint replace_all (c : N) (by_ : str) (s : str) : str :=
  match s with
  | [] => []
  | x :: s' =>
      (if (x =? c)%N then by_ else [x]) ++ replace_all c by_ s'
  end.

(** The text of an integer inside a template literal. *)
Definition of_int (n : Z) : str :=
  lit (NilEmpty.string_of_int (Z.to_int n)).

(** The value of an optional string parameter when it is truthy:
    [undefined] and the empty string are not. *)
Definition if_truthy (o : option str) : option str :=
  match o with
  | Some (c :: s) => Some (c :: s)
  | _ => None
  end.

(** An optional boolean used as a condition: [undefined] is falsy. *)
Definition truthy_flag (o : option bool) : bool :=
  match o with
  | Some true => true
  | _ => false
  end.

Definition LF : N := 10.
Definition quote : N := 34.
Definition backslash : N := 92.

End Js.

Abbreviation str := Js.str.
Notation "` s" := (Js.lit s) (at level 1, s at level 0, format "` s").

Definition LF : str := [Js.LF].
Definition SP : str := `" ".

(** ** Child processes, promises and effects *)

(** A chunk delivered by a [data] event, already decoded by
    [data.toString()]. *)
Inductive ChildEvent : Type :=
| StdoutData (data : str)
| StderrData (data : str).

(** What the helper observes of one spawned child: its [data] events in
    order of arrival, the [code] of its [close] event ([None] is [null],
    a child ended by a signal), and the instant of that [close] event on
    the event loop's clock. *)
Record ChildRun : Type := mkChildRun {
  events : list ChildEvent;
  close_code : option Z;
  close_at : nat
}.

(** [new Error(message)]. *)
Record Error : Type := mkError { message : str }.

Inductive Settled (A : Type) : Type :=
| Fulfilled (value : A)
| Rejected (reason : Error).
Arguments Fulfilled {A} value.
Arguments Rejected {A} reason.

(** A promise, seen from its end: when it settles and how. *)
Record Promise (A : Type) : Type := mkPromise {
  settled_at : nat;
  settled : Settled A
}.

(** The effects of a handler that leave the server. *)
Inductive Effect : Type :=
| ConsoleLog (line : str)
| Spawn (command : str) (args : list str) (child : ChildRun).

Definition Trace := list Effect.

Fixpoint spawned (tr : Trace) : list (str * list str) :=
  match tr with
  | [] => []
  | ConsoleLog _ :: tr' => spawned tr'
  | Spawn command args _ :: tr' => (command, args) :: spawned tr'
  end.

Fixpoint children (tr : Trace) : list ChildRun :=
  match tr with
  | [] => []
  | ConsoleLog _ :: tr' => children tr'
  | Spawn _ _ child :: tr' => child :: children tr'
  end.

(** The world outside: how the n-th child spawned during an invocation
    runs, given its command and argument vector. *)
Definition Env := nat -> str -> list str -> ChildRun.

(** The body of an [async] function: it reads the environment, extends
    the trace, and either returns a value or throws. *)
Definition Async (A : Type) : Type := Env -> Trace -> Trace * Settled A.

Definition ret {A} (a : A) : Async A := fun _ tr => (tr, Fulfilled a).

Definition throw {A} (e : Error) : Async A := fun _ tr => (tr, Rejected e).

Definition bind {A B} (m : Async A) (k : A -> Async B) : Async B :=
  fun env tr =>
    match m env tr with
    | (tr', Fulfilled a) => k a env tr'
    | (tr', Rejected e) => (tr', Rejected e)
    end.

Notation "x <- m ;; k" := (bind m (fun x => k))
  (at level 61, m at next level, right associativity).
Notation "m ;; k" := (bind m (fun _ => k))
  (at level 61, right associativity).

(** [try { body } catch (error) { handler }]. *)
Definition try_catch {A} (body : Async A) (handler : Error -> Async A)
  : Async A :=
  fun env tr =>
    match body env tr with
    | (tr', Fulfilled a) => (tr', Fulfilled a)
    | (tr', Rejected e) => handler e env tr'
    end.

Notation "'try' body 'catch' error => handler" :=
  (try_catch body (fun error => handler))
  (at level 62, body at level 61, error name, handler at level 61).

(** [await p]. *)
Definition await {A} (p : Promise A) : Async A :=
  fun _ tr => (tr, settled p).

(** [l.map(f)] for a callback with effects, left to right. *)
Fixpoint mapM {A B} (f : A -> Async B) (l : list A) : Async (list B) :=
  match l with
  | [] => ret []
  | x :: l' => y <- f x ;; ys <- mapM f l' ;; ret (y :: ys)
  end.

Definition console_log (line : str) : Async unit :=
  fun _ tr => (tr ++ [ConsoleLog line], Fulfilled tt).

(** [spawn(command, args)]: the child is the next one of the
    environment. *)
Definition spawn (command : str) (args : list str) : Async ChildRun :=
  fun env tr =>
    let child := env (List.length (children tr)) command args in
    (tr ++ [Spawn command args child], Fulfilled child).

(** *** [Promise.all] *)

(** The rejection that comes first in time, the earlier promise of the
    array when two come at the same instant. *)
Fixpoint first_rejection {A} (ps : list (Promise A)) : option (nat * Error) :=
  match ps with
  | [] => None
  | p :: ps' =>
      match settled p, first_rejection ps' with
      | Fulfilled _, r => r
      | Rejected e, None => Some (settled_at p, e)
      | Rejected e, Some (t, e') =>
          if settled_at p <=? t then Some (settled_at p, e) else Some (t, e')
      end
  end.

Fixpoint fulfilled_values {A} (ps : list (Promise A)) : list A :=
  match ps with
  | [] => []
  | p :: ps' =>
      match settled p with
      | Fulfilled a => a :: fulfilled_values ps'
      | Rejected _ => fulfilled_values ps'
      end
  end.

(** [Promise.all(ps)]: rejected with the first rejection in time if there
    is one, else fulfilled with the values in the order of the array once
    the last promise has settled. *)
Definition Promise_all {A} (ps : list (Promise A)) : Promise (list A) :=
  match first_rejection ps with
  | Some (t, e) => mkPromise t (Rejected e)
  | None =>
      mkPromise (fold_right Nat.max 0 (map (@settled_at A) ps))
                (Fulfilled (fulfilled_values ps))
  end.

(** ** The helper [executeClearToolCommand] *)

(** The two buffers [output] and [error] after the [data] events. *)
Definition on_data (buffers : str * str) (ev : ChildEvent) : str * str :=
  let (output, error) := buffers in
  match ev with
  | StdoutData data => (output ++ data, error)
  | StderrData data => (output, error ++ data)
  end.

Definition code_text (code : option Z) : str :=
  match code with
  | Some n => Js.of_int n
  | None => `"null"
  end.

(** The [close] listener: [code === 0] resolves with the trimmed
    [output], any other code rejects with the trimmed [error], or with
    the exit message when that is the empty string. *)
Definition on_close (buffers : str * str) (code : option Z) : Settled str :=
  let (output, error) := buffers in
  match code with
  | Some 0%Z => Fulfilled (Js.trim output)
  | _ =>
      Rejected (mkError (if Js.truthy (Js.trim error) then Js.trim error
                         else `"Process exited with code " ++ code_text code))
  end.

Definition executeClearToolCommand (command : str) (args : list str)
  : Async (Promise str) :=
  console_log (`"Executing command: " ++ command ++ SP ++ Js.join SP args) ;;
  process <- spawn command args ;;
  let buffers := fold_left on_data (events process) ([], []) in
  ret (mkPromise (close_at process) (on_close buffers (close_code process))).

(** ** Responses *)

Record ContentBlock : Type := mkContentBlock { type : str; text : str }.

Record Response : Type := mkResponse { content : list ContentBlock }.

(** [{ content: [{ type: 'text', text: t }] }]. *)
Definition text_content (t : str) : Response :=
  {| content := [ {| type := `"text"; text := t |} ] |}.

(** ** The tool handlers, in the order of their registration *)

Definition cleartool : str := `"cleartool".

(** The replacement applied to the three comment arguments: every
    double quote becomes a backslash followed by a double quote. *)
Definition escape_quotes (comment : str) : str :=
  Js.replace_all Js.quote [Js.backslash; Js.quote] comment.

Definition get_clearcase_views : Async Response :=
  try
    (p <- executeClearToolCommand cleartool [`"lsview"] ;;
     output <- await p ;;
     ret (text_content (`"Views:" ++ LF ++ output)))
  catch error =>
    ret (text_content (`"Error retrieving views: " ++ message error)).

Definition get_resource_status (resourcePath : str) : Async Response :=
  try
    (p <- executeClearToolCommand cleartool [`"describe"; resourcePath] ;;
     output <- await p ;;
     ret (text_content (`"Resource status:" ++ LF ++ output)))
  catch error =>
    ret (text_content (`"Error retrieving resource status: " ++ message error)).

Definition create_or_set_ucm_activity
  (activityId activityHeadline : option str) (setActivity : bool)
  : Async Response :=
  try
    (match Js.if_truthy activityId with
     | Some activityId =>
         p <- executeClearToolCommand cleartool [`"setactivity"; activityId] ;;
         _ <- await p ;;
         ret (text_content
                (`"Activity " ++ activityId ++ `" set successfully."))
     | None =>
         match Js.if_truthy activityHeadline with
         | Some activityHeadline =>
             p <- executeClearToolCommand cleartool
                    [`"mkactivity"; `"-headline"; activityHeadline] ;;
             output <- await p ;;
             (if setActivity then
                let activityId := hd [] (Js.split Js.LF output) in
                q <- executeClearToolCommand cleartool
                       [`"setactivity"; activityId] ;;
                _ <- await q ;;
                ret tt
              else ret tt) ;;
             ret (text_content
                    (`"Activity created successfully:" ++ LF ++ output))
         | None =>
             throw (mkError
                      `"Either activityId or activityHeadline must be provided.")
         end
     end)
  catch error =>
    ret (text_content
           (`"Error creating or setting activity: " ++ message error)).

Definition checkout_resources (resourcePaths : list str)
  (comment : option str) : Async Response :=
  try
    (let commentArg :=
       match Js.if_truthy comment with
       | Some comment => escape_quotes comment
       | None => `"automated checkout"
       end in
     ps <- mapM (fun path =>
                   executeClearToolCommand cleartool
                     [`"checkout"; `"-c"; commentArg; path])
                resourcePaths ;;
     results <- await (Promise_all ps) ;;
     ret (text_content (`"Checkout results:" ++ LF ++ Js.join LF results)))
  catch error =>
    ret (text_content (`"Error checking out resources: " ++ message error)).

Definition undo_checkout (resourcePaths : list str)
  (keepChanges : option bool) : Async Response :=
  try
    (ps <- mapM (fun path =>
                   executeClearToolCommand cleartool
                     [`"uncheckout";
                      if Js.truthy_flag keepChanges then `"-keep" else `"-rm";
                      path])
                resourcePaths ;;
     results <- await (Promise_all ps) ;;
     ret (text_content
            (`"Undo checkout results:" ++ LF ++ Js.join LF results)))
  catch error =>
    ret (text_content (`"Error undoing checkout: " ++ message error)).

Definition checkin_resources (resourcePaths : list str)
  (comment : option str) (checkinIdentical : option bool) : Async Response :=
  try
    (let commentArg :=
       match Js.if_truthy comment with
       | Some comment => escape_quotes comment
       | None => `"automated checkin"
       end in
     let args := [`"checkin"] in
     let args :=
       if Js.truthy_flag checkinIdentical then args ++ [`"-identical"]
       else args in
     let args := args ++ [`"-c"; commentArg] in
     ps <- mapM (fun path =>
                   executeClearToolCommand cleartool (args ++ [path]))
                resourcePaths ;;
     results <- await (Promise_all ps) ;;
     ret (text_content (`"Check-in results:" ++ LF ++ Js.join LF results)))
  catch error =>
    ret (text_content (`"Error checking in resources: " ++ message error)).

Definition login (wanServer username password : str) : Async Response :=
  try
    (p <- executeClearToolCommand cleartool
            [`"login"; `"-server"; wanServer; `"-user"; username;
             `"-password"; password] ;;
     output <- await p ;;
     ret (text_content (`"Login successful:" ++ LF ++ output)))
  catch error =>
    ret (text_content (`"Error during login: " ++ message error)).

Definition logout : Async Response :=
  try
    (p <- executeClearToolCommand cleartool [`"logout"] ;;
     output <- await p ;;
     ret (text_content (`"Logout successful:" ++ LF ++ output)))
  catch error =>
    ret (text_content (`"Error during logout: " ++ message error)).

Definition add_view (viewPath : str) : Async Response :=
  try
    (p <- executeClearToolCommand cleartool [`"mkview"; viewPath] ;;
     output <- await p ;;
     ret (text_content (`"View added successfully:" ++ LF ++ output)))
  catch error =>
    ret (text_content (`"Error adding view: " ++ message error)).

Definition update_view (viewPath : str) : Async Response :=
  try
    (p <- executeClearToolCommand cleartool
            [`"setcs"; `"-current"; viewPath] ;;
     output <- await p ;;
     ret (text_content (`"View updated successfully:" ++ LF ++ output)))
  catch error =>
    ret (text_content (`"Error updating view: " ++ message error)).

Definition add_resources (resourcePaths : list str)
  (comment : option str) : Async Response :=
  try
    (let commentArg :=
       match Js.if_truthy comment with
       | Some comment => escape_quotes comment
       | None => `"automated add"
       end in
     ps <- mapM (fun path =>
                   executeClearToolCommand cleartool
                     [`"mkelem"; `"-c"; commentArg; path])
                resourcePaths ;;
     results <- await (Promise_all ps) ;;
     ret (text_content (`"Add results:" ++ LF ++ Js.join LF results)))
  catch error =>
    ret (text_content (`"Error adding resources: " ++ message error)).

Definition hijack_resources (resourcePaths : list str) : Async Response :=
  try
    (ps <- mapM (fun path =>
                   executeClearToolCommand cleartool [`"hijack"; path])
                resourcePaths ;;
     results <- await (Promise_all ps) ;;
     ret (text_content (`"Hijack results:" ++ LF ++ Js.join LF results)))
  catch error =>
    ret (text_content (`"Error hijacking resources: " ++ message error)).

Definition undo_hijack (resourcePaths : list str) : Async Response :=
  try
    (ps <- mapM (fun path =>
                   executeClearToolCommand cleartool [`"unhijack"; path])
                resourcePaths ;;
     results <- await (Promise_all ps) ;;
     ret (text_content (`"Undo hijack results:" ++ LF ++ Js.join LF results)))
  catch error =>
    ret (text_content (`"Error undoing hijack: " ++ message error)).

Definition rename_resource (resourcePath newName : str) : Async Response :=
  try
    (p <- executeClearToolCommand cleartool [`"mv"; resourcePath; newName] ;;
     output <- await p ;;
     ret (text_content (`"Resource renamed successfully:" ++ LF ++ output)))
  catch error =>
    ret (text_content (`"Error renaming resource: " ++ message error)).

Definition remove_resource (resourcePath : str) : Async Response :=
  try
    (p <- executeClearToolCommand cleartool [`"rmname"; resourcePath] ;;
     output <- await p ;;
     ret (text_content (`"Resource removed successfully:" ++ LF ++ output)))
  catch error =>
    ret (text_content (`"Error removing resource: " ++ message error)).

Definition open_file (filePath : str) : Async Response :=
  try
    (p <- executeClearToolCommand cleartool [`"describe"; filePath] ;;
     output <- await p ;;
     ret (text_content (`"File opened successfully:" ++ LF ++ output)))
  catch error =>
    ret (text_content (`"Error opening file: " ++ message error)).

(** ** The registrations *)

(** The shapes of the parameter schemas. *)
Inductive Zod : Type :=
| z_string
| z_boolean
| z_array (item : Zod)
| z_optional (inner : Zod).

Record Param : Type := mkParam {
  param_name : string;
  param_type : Zod;
  param_describe : string
}.

(** The first three arguments of a call [server.tool(...)]. *)
Record Tool : Type := mkTool {
  tool_name : string;
  tool_description : string;
  tool_schema : list Param
}.

(** The calls [server.tool(...)] of the file, in order. *)
Definition registered_tools : list Tool :=
  [ mkTool "get_clearcase_views"
      "Retrieve a list of available ClearCase views" [];
    mkTool "get_resource_status"
      "Retrieve the status of a specific resource"
      [ mkParam "resourcePath" z_string "Path to the resource" ];
    mkTool "create_or_set_ucm_activity"
      "Create a new UCM activity or set an existing one"
      [ mkParam "activityId" (z_optional z_string)
          "ID of the activity to set (optional)";
        mkParam "activityHeadline" (z_optional z_string)
          "Headline for the new activity (optional)";
        mkParam "setActivity" z_boolean
          "Whether to set the activity after creation" ];
    mkTool "checkout_resources"
      "Checkout one or more resources for editing"
      [ mkParam "resourcePaths" (z_array z_string)
          "List of resource paths to checkout";
        mkParam "comment" (z_optional z_string)
          "Comment for the checkout operation" ];
    mkTool "undo_checkout"
      "Undo the checkout of one or more resources"
      [ mkParam "resourcePaths" (z_array z_string)
          "List of resource paths to undo checkout";
        mkParam "keepChanges" (z_optional z_boolean)
          "Whether to keep local changes" ];
    mkTool "checkin_resources"
      "Check in one or more resources to ClearCase"
      [ mkParam "resourcePaths" (z_array z_string)
          "List of resource paths to check in";
        mkParam "comment" (z_optional z_string)
          "Comment for the check-in operation";
        mkParam "checkinIdentical" (z_optional z_boolean)
          "Whether to allow check-in of identical files" ];
    mkTool "login"
      "Authenticate with ClearCase"
      [ mkParam "wanServer" z_string "WAN server URL";
        mkParam "username" z_string "Username";
        mkParam "password" z_string "Password" ];
    mkTool "logout"
      "Logout from ClearCase" [];
    mkTool "add_view"
      "Add a ClearCase view"
      [ mkParam "viewPath" z_string "Path to the view" ];
    mkTool "update_view"
      "Update a ClearCase view"
      [ mkParam "viewPath" z_string "Path to the view" ];
    mkTool "add_resources"
      "Add resources to ClearCase source control"
      [ mkParam "resourcePaths" (z_array z_string)
          "List of resource paths to add";
        mkParam "comment" (z_optional z_string)
          "Comment for the add operation" ];
    mkTool "hijack_resources"
      "Hijack one or more resources"
      [ mkParam "resourcePaths" (z_array z_string)
          "List of resource paths to hijack" ];
    mkTool "undo_hijack"
      "Undo the hijack of one or more resources"
      [ mkParam "resourcePaths" (z_array z_string)
          "List of resource paths to undo hijack" ];
    mkTool "rename_resource"
      "Rename a ClearCase resource"
      [ mkParam "resourcePath" z_string "Path to the resource to rename";
        mkParam "newName" z_string "New name for the resource" ];
    mkTool "remove_resource"
      "Remove a ClearCase resource"
      [ mkParam "resourcePath" z_string "Path to the resource to remove" ];
    mkTool "open_file"
      "Open a ClearCase file"
      [ mkParam "filePath" z_string "Path to the file to open" ] ].

(** A tool invocation whose parameters passed the schema of its tool. *)
Inductive Request : Type :=
| GetClearcaseViews
| GetResourceStatus (resourcePath : str)
| CreateOrSetUcmActivity (activityId activityHeadline : option str)
    (setActivity : bool)
| CheckoutResources (resourcePaths : list str) (comment : option str)
| UndoCheckout (resourcePaths : list str) (keepChanges : option bool)
| CheckinResources (resourcePaths : list str) (comment : option str)
    (checkinIdentical : option bool)
| Login (wanServer username password : str)
| Logout
| AddView (viewPath : str)
| UpdateView (viewPath : str)
| AddResources (resourcePaths : list str) (comment : option str)
| HijackResources (resourcePaths : list str)
| UndoHijack (resourcePaths : list str)
| RenameResource (resourcePath newName : str)
| RemoveResource (resourcePath : str)
| OpenFile (filePath : str).

Definition operation (req : Request) : string :=
  match req with
  | GetClearcaseViews => "get_clearcase_views"
  | GetResourceStatus _ => "get_resource_status"
  | CreateOrSetUcmActivity _ _ _ => "create_or_set_ucm_activity"
  | CheckoutResources _ _ => "checkout_resources"
  | UndoCheckout _ _ => "undo_checkout"
  | CheckinResources _ _ _ => "checkin_resources"
  | Login _ _ _ => "login"
  | Logout => "logout"
  | AddView _ => "add_view"
  | UpdateView _ => "update_view"
  | AddResources _ _ => "add_resources"
  | HijackResources _ => "hijack_resources"
  | UndoHijack _ => "undo_hijack"
  | RenameResource _ _ => "rename_resource"
  | RemoveResource _ => "remove_resource"
  | OpenFile _ => "open_file"
  end.

(** The handler registered under the name of the request, applied to its
    parameters. *)
Definition handle (req : Request) : Async Response :=
  match req with
  | GetClearcaseViews => get_clearcase_views
  | GetResourceStatus resourcePath => get_resource_status resourcePath
  | CreateOrSetUcmActivity activityId activityHeadline setActivity =>
      create_or_set_ucm_activity activityId activityHeadline setActivity
  | CheckoutResources resourcePaths comment =>
      checkout_resources resourcePaths comment
  | UndoCheckout resourcePaths keepChanges =>
      undo_checkout resourcePaths keepChanges
  | CheckinResources resourcePaths comment checkinIdentical =>
      checkin_resources resourcePaths comment checkinIdentical
  | Login wanServer username password => login wanServer username password
  | Logout => logout
  | AddView viewPath => add_view viewPath
  | UpdateView viewPath => update_view viewPath
  | AddResources resourcePaths comment => add_resources resourcePaths comment
  | HijackResources resourcePaths => hijack_resources resourcePaths
  | UndoHijack resourcePaths => undo_hijack resourcePaths
  | RenameResource resourcePath newName =>
      rename_resource resourcePath newName
  | RemoveResource resourcePath => remove_resource resourcePath
  | OpenFile filePath => open_file filePath
  end.

(** One invocation of a tool by the protocol host: the handler runs from
    an empty trace. *)
Definition invoke (env : Env) (req : Request) : Trace * Settled Response :=
  handle req env [].

(** ** Vocabulary of the statements *)

(** The accumulated text of each stream of a child. *)
Fixpoint stdout_text (evs : list ChildEvent) : str :=
  match evs with
  | [] => []
  | StdoutData data :: evs' => data ++ stdout_text evs'
  | StderrData _ :: evs' => stdout_text evs'
  end.

Fixpoint stderr_text (evs : list ChildEvent) : str :=
  match evs with
  | [] => []
  | StdoutData _ :: evs' => stderr_text evs'
  | StderrData data :: evs' => data ++ stderr_text evs'
  end.

Definition exits_zero (c : ChildRun) : bool :=
  match close_code c with
  | Some 0%Z => true
  | _ => false
  end.

(** What a child that resolves hands to its handler. *)
Definition child_output (c : ChildRun) : str :=
  Js.trim (stdout_text (events c)).

(** What a failing child reports: its error text without the
    surrounding white space, or the exit message when nothing is left. *)
Definition failure_text (c : ChildRun) : str :=
  match Js.trim (stderr_text (events c)) with
  | [] => `"Process exited with code " ++ code_text (close_code c)
  | e => e
  end.

(** [t] is [s] without the white space around it. *)
Definition trimmed_of (s t : str) : Prop :=
  exists l r,
    s = l ++ t ++ r /\
    forallb Js.is_white_space l = true /\
    forallb Js.is_white_space r = true /\
    (forall c t', t = c :: t' -> Js.is_white_space c = false) /\
    (forall c t', t = t' ++ [c] -> Js.is_white_space c = false).

(** [t] is the comment [s] with a backslash put before every double
    quote. *)
Inductive quotes_escaped : str -> str -> Prop :=
| qe_nil : quotes_escaped [] []
| qe_quote s t :
    quotes_escaped s t ->
    quotes_escaped (Js.quote :: s) (Js.backslash :: Js.quote :: t)
| qe_other c s t :
    c <> Js.quote ->
    quotes_escaped s t ->
    quotes_escaped (c :: s) (c :: t).

(** The label that opens the text of a failure, per tool. *)
Definition error_label (req : Request) : str :=
  match req with
  | GetClearcaseViews => `"Error retrieving views: "
  | GetResourceStatus _ => `"Error retrieving resource status: "
  | CreateOrSetUcmActivity _ _ _ => `"Error creating or setting activity: "
  | CheckoutResources _ _ => `"Error checking out resources: "
  | UndoCheckout _ _ => `"Error undoing checkout: "
  | CheckinResources _ _ _ => `"Error checking in resources: "
  | Login _ _ _ => `"Error during login: "
  | Logout => `"Error during logout: "
  | AddView _ => `"Error adding view: "
  | UpdateView _ => `"Error updating view: "
  | AddResources _ _ => `"Error adding resources: "
  | HijackResources _ => `"Error hijacking resources: "
  | UndoHijack _ => `"Error undoing hijack: "
  | RenameResource _ _ => `"Error renaming resource: "
  | RemoveResource _ => `"Error removing resource: "
  | OpenFile _ => `"Error opening file: "
  end.

(** The label that opens the text of a success of a batch tool. *)
Definition results_label (req : Request) : str :=
  match req with
  | CheckoutResources _ _ => `"Checkout results:"
  | UndoCheckout _ _ => `"Undo checkout results:"
  | CheckinResources _ _ _ => `"Check-in results:"
  | AddResources _ _ => `"Add results:"
  | HijackResources _ => `"Hijack results:"
  | UndoHijack _ => `"Undo hijack results:"
  | _ => []
  end.

(** The paths of a request to one of the six batch tools. *)
Definition batch_paths (req : Request) : option (list str) :=
  match req with
  | CheckoutResources resourcePaths _
  | UndoCheckout resourcePaths _
  | CheckinResources resourcePaths _ _
  | AddResources resourcePaths _
  | HijackResources resourcePaths
  | UndoHijack resourcePaths => Some resourcePaths
  | _ => None
  end.

Definition is_activity (req : Request) : bool :=
  match req with
  | CreateOrSetUcmActivity _ _ _ => true
  | _ => false
  end.

(** The argument vector a batch tool builds for one path. *)
Definition batch_argv (req : Request) (path : str) : list str :=
  match req with
  | CheckoutResources _ comment =>
      [`"checkout"; `"-c";
       match Js.if_truthy comment with
       | Some comment => escape_quotes comment
       | None => `"automated checkout"
       end; path]
  | UndoCheckout _ keepChanges =>
      [`"uncheckout";
       if Js.truthy_flag keepChanges then `"-keep" else `"-rm"; path]
  | CheckinResources _ comment checkinIdentical =>
      ((if Js.truthy_flag checkinIdentical
        then [`"checkin"] ++ [`"-identical"] else [`"checkin"])
       ++ [`"-c";
           match Js.if_truthy comment with
           | Some comment => escape_quotes comment
           | None => `"automated checkin"
           end]) ++ [path]
  | AddResources _ comment =>
      [`"mkelem"; `"-c";
       match Js.if_truthy comment with
       | Some comment => escape_quotes comment
       | None => `"automated add"
       end; path]
  | HijackResources _ => [`"hijack"; path]
  | UndoHijack _ => [`"unhijack"; path]
  | _ => []
  end.

(** The last argument of each spawned command. *)
Definition last_args (tr : Trace) : list str :=
  map (fun ca => last (snd ca) []) (spawned tr).

(** The trace and the promises of the calls
    [paths.map(path => executeClearToolCommand(command, argv(path)))]
    when [n] children were spawned before. *)
Definition call_trace (env : Env) (n : nat) (command : str)
  (args : list str) : Trace :=
  [ ConsoleLog (`"Executing command: " ++ command ++ SP ++ Js.join SP args);
    Spawn command args (env n command args) ].

Fixpoint batch_trace (env : Env) (n : nat) (command : str)
  (argv : str -> list str) (paths : list str) : Trace :=
  match paths with
  | [] => []
  | path :: paths' =>
      call_trace env n command (argv path)
      ++ batch_trace env (S n) command argv paths'
  end.

Definition child_promise (c : ChildRun) : Promise str :=
  mkPromise (close_at c)
    (on_close (fold_left on_data (events c) ([], [])) (close_code c)).

(** ** Sample children and requests *)

(** A child that fails after writing a line on its error stream, closing
    at the given instant. *)
Definition locked_child (instant : nat) : ChildRun :=
  {| events := [StderrData (`"element is locked" ++ LF)];
     close_code := Some 1%Z;
     close_at := instant |}.

(** An environment where every child fails, a later one closing earlier. *)
Definition env_locked : Env := fun n _ _ => locked_child (5 - n).

(** A child that succeeds, its output padded with white space at both
    ends and delivered in two chunks. *)
Definition padded_child : ChildRun :=
  {| events := [StdoutData `"  view"; StdoutData (`"_1 " ++ LF)];
     close_code := Some 0%Z;
     close_at := 0 |}.

Definition env_padded : Env := fun _ _ _ => padded_child.

(** A child that fails with padded error text. *)
Definition padded_failure : ChildRun :=
  {| events := [StderrData (`" denied" ++ LF)];
     close_code := Some 2%Z;
     close_at := 0 |}.

Definition env_padded_failure : Env := fun _ _ _ => padded_failure.

(** A child that succeeds and echoes the last argument it was given. *)
Definition env_echo : Env :=
  fun n _ args =>
    {| events := [StdoutData (`"Checked out " ++ last args [] ++ LF)];
       close_code := Some 0%Z;
       close_at := n |}.

(** A comment with two double quotes in it. *)
Definition quoted_comment : str :=
  `"say " ++ [Js.quote] ++ `"hi" ++ [Js.quote].

(** A world where the creation of an activity succeeds and prints the
    new identifier on its first line, and every later child fails. *)
Definition env_created_not_set : Env :=
  fun n _ _ =>
    match n with
    | 0 => {| events := [StdoutData (`"fix_login_42" ++ LF
                                     ++ `"Created activity." ++ LF)];
              close_code := Some 0%Z;
              close_at := 0 |}
    | S _ => locked_child 1
    end.

(** A child ended by a signal, with nothing but a line feed on its error
    stream. *)
Definition killed_child : ChildRun :=
  {| events := [StdoutData `"partial"; StderrData LF];
     close_code := None;
     close_at := 0 |}.

Definition env_killed : Env := fun _ _ _ => killed_child.



(** ** Vocabulary of the further statements *)

(** The label that opens the text of a success of a tool made of one
    call. *)
Definition done_label (req : Request) : str :=
  match req with
  | GetClearcaseViews => `"Views:"
  | GetResourceStatus _ => `"Resource status:"
  | Login _ _ _ => `"Login successful:"
  | Logout => `"Logout successful:"
  | AddView _ => `"View added successfully:"
  | UpdateView _ => `"View updated successfully:"
  | RenameResource _ _ => `"Resource renamed successfully:"
  | RemoveResource _ => `"Resource removed successfully:"
  | OpenFile _ => `"File opened successfully:"
  | _ => []
  end.


(** A trace where every child is a run of cleartool, spawned right after
    the line that logs its whole command. *)
Inductive well_logged : Trace -> Prop :=
| wl_nil : well_logged []
| wl_call args child tr :
    well_logged tr ->
    well_logged
      (ConsoleLog (`"Executing command: cleartool " ++ Js.join SP args)
       :: Spawn cleartool args child :: tr).


(** ** The configuration script [setup] *)

Module Setup.

(** What the script does to the outside. *)
Inductive Effect : Type :=
| ConsoleLog (line : str)
| Question (query : str)
| WriteFileSync (file data : str)
| ConsoleError (args : list str)
| RlClose.

(** The outside of the script: the line typed in answer to the n-th
    question, and whether writing a file throws. *)
Record World : Type := mkWorld {
  answer : nat -> str -> str;
  write_error : str -> str -> option Error
}.

Definition Script (A : Type) : Type :=
  World -> list Effect -> list Effect * Settled A.

Definition ret {A} (a : A) : Script A := fun _ tr => (tr, Fulfilled a).

Definition bind {A B} (m : Script A) (k : A -> Script B) : Script B :=
  fun w tr =>
    match m w tr with
    | (tr', Fulfilled a) => k a w tr'
    | (tr', Rejected e) => (tr', Rejected e)
    end.

Definition try_catch {A} (body : Script A) (handler : Error -> Script A)
  : Script A :=
  fun w tr =>
    match body w tr with
    | (tr', Fulfilled a) => (tr', Fulfilled a)
    | (tr', Rejected e) => handler e w tr'
    end.

Definition console_log (line : str) : Script unit :=
  fun _ tr => (tr ++ [ConsoleLog line], Fulfilled tt).











(** A world that answers with three fixed lines and lets the file be
    written. *)
Definition typed_world : World :=
  {| answer := fun n _ =>
                 match n with
                 | 0 => `"tok-123"
                 | 1 => `"https://cc.example.com/clearcase"
                 | _ => `"team-9"
                 end;
     write_error := fun _ _ => None |}.

(** The same answers, on a disk that refuses the write. *)
Definition read_only_world : World :=
  {| answer := answer typed_world;
     write_error := fun _ _ => Some (mkError `"EACCES: permission denied") |}.

End Setup.

(** ** Strings: trimming, escaping, splitting *)

Section StringFacts.

Lemma trimStart_decompose (s : str) :
  exists l, s = l ++ Js.trimStart s /\ forallb Js.is_white_space l = true.
Proof.
  induction s as [|c s [l [Hs Hl]]]; simpl.
  - exists []; auto.
  - destruct (Js.is_white_space c) eqn:Hc.
    + exists (c :: l); simpl; rewrite Hc, Hl; split; [now f_equal|reflexivity].
    + exists []; auto.
Qed.

Lemma trimStart_head (s : str) c t :
  Js.trimStart s = c :: t -> Js.is_white_space c = false.
Proof.
  induction s as [|x s IH]; simpl; [discriminate|].
  destruct (Js.is_white_space x) eqn:Hx; auto.
  intros [= -> _]; exact Hx.
Qed.

Lemma forallb_rev (f : N -> bool) (l : list N) :
  forallb f (rev l) = forallb f l.
Proof.
  induction l as [|x l IH]; simpl; auto.
  rewrite forallb_app, IH; simpl. rewrite andb_true_r, andb_comm; reflexivity.
Qed.

Lemma trimEnd_decompose (s : str) :
  exists r, s = Js.trimEnd s ++ r /\ forallb Js.is_white_space r = true.
Proof.
  unfold Js.trimEnd.
  destruct (trimStart_decompose (rev s)) as [l [Hs Hl]].
  exists (rev l); split.
  - rewrite <- rev_app_distr, <- Hs, rev_involutive; reflexivity.
  - rewrite forallb_rev; exact Hl.
Qed.

Lemma trimEnd_last (s : str) c t :
  Js.trimEnd s = t ++ [c] -> Js.is_white_space c = false.
Proof.
  unfold Js.trimEnd; intros H.
  apply (f_equal (@rev N)) in H.
  rewrite rev_involutive, rev_app_distr in H; simpl in H.
  eapply trimStart_head; eauto.
Qed.

(** Trimming the end leaves the first code unit alone when something
    is left. *)
Lemma trimEnd_head (s : str) c t :
  Js.trimEnd s = c :: t -> exists s', s = c :: s'.
Proof.
  destruct (trimEnd_decompose s) as [r [Hs _]]; intros H.
  rewrite H in Hs; simpl in Hs; eauto.
Qed.

Lemma trim_trimmed (s : str) : trimmed_of s (Js.trim s).
Proof.
  unfold trimmed_of, Js.trim.
  destruct (trimStart_decompose s) as [l [Hs Hl]].
  destruct (trimEnd_decompose (Js.trimStart s)) as [r [Ht Hr]].
  exists l, r; repeat split; auto.
  - rewrite <- Ht; exact Hs.
  - intros c t' H.
    destruct (trimEnd_head _ H) as [s' Hs'].
    eapply trimStart_head; eauto.
  - intros c t' H; eapply trimEnd_last; eauto.
Qed.

Lemma escape_quotes_escaped (s : str) : quotes_escaped s (escape_quotes s).
Proof.
  unfold escape_quotes; induction s as [|c s IH]; simpl.
  - constructor.
  - destruct (N.eqb_spec c Js.quote) as [->|Hc]; simpl.
    + now constructor.
    + now constructor.
Qed.

Lemma quotes_escaped_functional (s t u : str) :
  quotes_escaped s t -> quotes_escaped s u -> t = u.
Proof.
  intros H; revert u; induction H; intros u Hu; inversion Hu; subst;
    try congruence; f_equal; auto.
  f_equal; auto.
Qed.

Lemma escape_quotes_nonempty (c : N) (s : str) : escape_quotes (c :: s) <> [].
Proof.
  unfold escape_quotes; simpl.
  destruct (c =? Js.quote)%N; discriminate.
Qed.

Lemma split_nonempty (sep : N) (s : str) : Js.split sep s <> [].
Proof.
  induction s as [|c s IH]; simpl; [discriminate|].
  destruct (c =? sep)%N; [discriminate|].
  destruct (Js.split sep s); discriminate.
Qed.

End StringFacts.

(** ** The helper and the batch calls *)

Section Adapter.

Lemma on_data_fold (evs : list ChildEvent) (output error : str) :
  fold_left on_data evs (output, error)
  = (output ++ stdout_text evs, error ++ stderr_text evs).
Proof.
  revert output error; induction evs as [|[d|d] evs IH]; intros; simpl.
  - now rewrite !app_nil_r.
  - rewrite IH, <- app_assoc; reflexivity.
  - rewrite IH, <- app_assoc; reflexivity.
Qed.

Lemma child_promise_settled (c : ChildRun) :
  settled (child_promise c)
  = if exits_zero c then Fulfilled (child_output c)
    else Rejected (mkError (failure_text c)).
Proof.
  unfold child_promise, exits_zero, child_output, failure_text; simpl.
  rewrite on_data_fold; simpl.
  destruct (close_code c) as [[|q|q]|]; simpl; try reflexivity;
    destruct (Js.trim (stderr_text (events c))); reflexivity.
Qed.

Lemma children_app (tr tr' : Trace) :
  children (tr ++ tr') = children tr ++ children tr'.
Proof.
  induction tr as [|[l|c a r] tr IH]; simpl; auto. now rewrite IH.
Qed.

Lemma spawned_app (tr tr' : Trace) :
  spawned (tr ++ tr') = spawned tr ++ spawned tr'.
Proof.
  induction tr as [|[l|c a r] tr IH]; simpl; auto. now rewrite IH.
Qed.

Lemma executeClearToolCommand_run (command : str) (args : list str)
  (env : Env) (tr : Trace) :
  executeClearToolCommand command args env tr
  = (tr ++ call_trace env (List.length (children tr)) command args,
     Fulfilled
       (child_promise (env (List.length (children tr)) command args))).
Proof.
  unfold executeClearToolCommand, bind, console_log, spawn, ret, call_trace.
  rewrite children_app; simpl. rewrite app_nil_r, <- app_assoc.
  reflexivity.
Qed.

Lemma in_combine_seq (A : Type) (l : list A) (n i : nat) (x : A) :
  In (i, x) (combine (seq n (List.length l)) l) ->
  n <= i /\ nth_error l (i - n) = Some x.
Proof.
  revert n; induction l as [|a l IH]; intros n; simpl; [tauto|].
  intros [[= <- <-]|H].
  - rewrite Nat.sub_diag; auto.
  - destruct (IH _ H) as [Hle Hnth]; split; [lia|].
    replace (i - n) with (S (i - S n)) by lia. exact Hnth.
Qed.

(** The children of a batch, in the order of the paths. *)
Lemma children_batch_trace env n command argv paths :
  children (batch_trace env n command argv paths)
  = map (fun ip => env (fst ip) command (argv (snd ip)))
      (combine (seq n (List.length paths)) paths).
Proof.
  revert n; induction paths as [|p paths IH]; intros n; simpl; auto.
  now rewrite IH.
Qed.

Lemma spawned_batch_trace env n command argv paths :
  spawned (batch_trace env n command argv paths)
  = map (fun path => (command, argv path)) paths.
Proof.
  revert n; induction paths as [|p paths IH]; intros n; simpl; auto.
  now rewrite IH.
Qed.

(** Every call of the batch is made, whatever becomes of the others. *)
Lemma mapM_executeClearToolCommand command argv paths env tr :
  mapM (fun path => executeClearToolCommand command (argv path)) paths env tr
  = (tr ++ batch_trace env (List.length (children tr)) command argv paths,
     Fulfilled
       (map child_promise
          (children
             (batch_trace env (List.length (children tr)) command argv
                paths)))).
Proof.
  revert tr; induction paths as [|p paths IH]; intros tr; simpl.
  - unfold ret; now rewrite app_nil_r.
  - unfold bind at 1. rewrite executeClearToolCommand_run.
    unfold bind at 1. rewrite IH.
    rewrite children_app, length_app; simpl.
    rewrite Nat.add_1_r, <- app_assoc. reflexivity.
Qed.

End Adapter.

(** ** [Promise.all] *)

Section PromiseAll.

Context {A : Type}.

Lemma first_rejection_none (ps : list (Promise A)) :
  first_rejection ps = None ->
  forall p, In p ps -> exists a, settled p = Fulfilled a.
Proof.
  induction ps as [|q ps IH]; simpl; [tauto|].
  destruct (settled q) eqn:Hq.
  - intros H p [<-|Hp]; eauto.
  - destruct (first_rejection ps) as [[t e]|]; [|discriminate].
    destruct (settled_at q <=? t); discriminate.
Qed.

(** The rejection [Promise.all] reports is the one of a promise of the
    array, and no promise of the array is rejected before it. *)
Lemma first_rejection_some (ps : list (Promise A)) t e :
  first_rejection ps = Some (t, e) ->
  (exists p, In p ps /\ settled p = Rejected e /\ settled_at p = t) /\
  (forall q e', In q ps -> settled q = Rejected e' -> t <= settled_at q).
Proof.
  revert t e; induction ps as [|p ps IH]; simpl; [discriminate|].
  intros t e.
  destruct (settled p) eqn:Hp.
  - intros H; destruct (IH _ _ H) as [[p' [Hin [Hs Ht]]] Hmin]; split.
    + exists p'; auto.
    + intros q e' [<-|Hq] Hr; [congruence|eauto].
  - destruct (first_rejection ps) as [[t' e']|] eqn:Hf.
    + destruct (IH _ _ eq_refl) as [[p' [Hin [Hs Ht]]] Hmin].
      destruct (Nat.leb_spec (settled_at p) t').
      * intros [= <- <-]; split.
        -- exists p; auto.
        -- intros q e'' [<-|Hq] Hr; [lia|].
           specialize (Hmin _ _ Hq Hr); lia.
      * intros [= <- <-]; split.
        -- exists p'; auto.
        -- intros q e'' [<-|Hq] Hr; [lia|eauto].
    + intros [= <- <-]; split.
      * exists p; auto.
      * intros q e'' [<-|Hq] Hr; [lia|].
        destruct (first_rejection_none _ Hf _ Hq) as [a Ha]; congruence.
Qed.

Lemma first_rejection_exists (ps : list (Promise A)) p e :
  In p ps -> settled p = Rejected e -> first_rejection ps <> None.
Proof.
  intros Hin Hp Hnone.
  destruct (first_rejection_none _ Hnone _ Hin) as [a Ha]; congruence.
Qed.

End PromiseAll.

Section BatchOutcome.

Lemma first_rejection_children (cs : list ChildRun) :
  (forall c, In c cs -> exits_zero c = true) ->
  first_rejection (map child_promise cs) = None.
Proof.
  induction cs as [|c cs IH]; cbn [map first_rejection In]; auto.
  intros H. rewrite child_promise_settled, (H c) by auto.
  apply IH; auto.
Qed.

Lemma fulfilled_values_children (cs : list ChildRun) :
  (forall c, In c cs -> exits_zero c = true) ->
  fulfilled_values (map child_promise cs) = map child_output cs.
Proof.
  induction cs as [|c cs IH]; cbn [map fulfilled_values In]; auto.
  intros H. rewrite child_promise_settled, (H c) by auto.
  f_equal; apply IH; auto.
Qed.

(** [await Promise.all(...)] over the promises of a batch. *)
Lemma Promise_all_children (cs : list ChildRun) :
  (first_rejection (map child_promise cs) = None /\
   settled (Promise_all (map child_promise cs))
   = Fulfilled (map child_output cs) /\
   forall c, In c cs -> exits_zero c = true)
  \/
  (exists c, In c cs /\ exits_zero c = false /\
     settled (Promise_all (map child_promise cs))
     = Rejected (mkError (failure_text c)) /\
     forall c', In c' cs -> exits_zero c' = false ->
                close_at c <= close_at c').
Proof.
  unfold Promise_all.
  destruct (first_rejection (map child_promise cs)) as [[t e]|] eqn:Hf.
  - right. destruct (first_rejection_some _ Hf) as [[p [Hin [Hs Ht]]] Hmin].
    apply in_map_iff in Hin; destruct Hin as [c [<- Hc]].
    rewrite child_promise_settled in Hs.
    exists c; destruct (exits_zero c) eqn:Hz; [discriminate|].
    injection Hs as <-. repeat split; auto.
    intros c' Hc' Hz'. simpl in Ht; subst t.
    apply (Hmin (child_promise c') (mkError (failure_text c'))).
    + now apply in_map.
    + rewrite child_promise_settled, Hz'; reflexivity.
  - left.
    assert (Hall : forall c, In c cs -> exits_zero c = true).
    { intros c Hc. destruct (exits_zero c) eqn:Hz; auto.
      exfalso; eapply (first_rejection_exists (map child_promise cs)); eauto.
      - apply in_map; eauto.
      - rewrite child_promise_settled, Hz; reflexivity. }
    repeat split; auto. simpl.
    now rewrite fulfilled_values_children.
Qed.

End BatchOutcome.

(** ** How the handlers run *)

Section HandlerRuns.

Variable env : Env.

(** A handler made of one awaited call. *)
Lemma single_call_run (args : list str) (done : str -> str) (label : str) :
  (try
     (p <- executeClearToolCommand cleartool args ;;
      output <- await p ;;
      ret (text_content (done output)))
   catch error =>
     ret (text_content (label ++ message error))) env []
  = (call_trace env 0 cleartool args,
     Fulfilled
       (text_content
          (if exits_zero (env 0 cleartool args)
           then done (child_output (env 0 cleartool args))
           else label ++ failure_text (env 0 cleartool args)))).
Proof.
  unfold try_catch, bind. rewrite executeClearToolCommand_run.
  unfold await. rewrite child_promise_settled. simpl.
  destruct (exits_zero (env 0 cleartool args)); reflexivity.
Qed.

(** A handler made of one call per path, awaited together. *)
Lemma batch_call_run (argv : str -> list str) (paths : list str)
  (done label : str) :
  (try
     (ps <- mapM (fun path =>
                    executeClearToolCommand cleartool (argv path)) paths ;;
      results <- await (Promise_all ps) ;;
      ret (text_content (done ++ LF ++ Js.join LF results)))
   catch error =>
     ret (text_content (label ++ message error))) env []
  = (batch_trace env 0 cleartool argv paths,
     Fulfilled
       (text_content
          match settled
                  (Promise_all
                     (map child_promise
                        (children
                           (batch_trace env 0 cleartool argv paths))))
          with
          | Fulfilled results => done ++ LF ++ Js.join LF results
          | Rejected error => label ++ message error
          end)).
Proof.
  unfold try_catch, bind. rewrite mapM_executeClearToolCommand.
  unfold await. simpl.
  destruct (settled _); reflexivity.
Qed.

Lemma invoke_batch (req : Request) (paths : list str) :
  batch_paths req = Some paths ->
  invoke env req
  = (batch_trace env 0 cleartool (batch_argv req) paths,
     Fulfilled
       (text_content
          match settled
                  (Promise_all
                     (map child_promise
                        (children
                           (batch_trace env 0 cleartool (batch_argv req)
                              paths))))
          with
          | Fulfilled results => results_label req ++ LF ++ Js.join LF results
          | Rejected error => error_label req ++ message error
          end)).
Proof.
  destruct req; simpl; try discriminate; intros [= ->]; unfold invoke, handle.
  - apply batch_call_run.
  - apply batch_call_run.
  - apply batch_call_run.
  - apply batch_call_run.
  - apply batch_call_run.
  - apply batch_call_run.
Qed.

Lemma batch_argv_last (req : Request) (paths : list str) (path : str) :
  batch_paths req = Some paths -> last (batch_argv req path) [] = path.
Proof.
  destruct req; simpl; try discriminate; intros _;
    solve [reflexivity | apply last_last].
Qed.

(** The tools made of one call. *)
Lemma invoke_single (req : Request) :
  batch_paths req = None -> is_activity req = false ->
  exists (args : list str) (done : str -> str),
    invoke env req
    = (call_trace env 0 cleartool args,
       Fulfilled
         (text_content
            (if exits_zero (env 0 cleartool args)
             then done (child_output (env 0 cleartool args))
             else error_label req ++ failure_text (env 0 cleartool args)))).
Proof.
  intros Hb Ha; destruct req; try discriminate;
    unfold invoke, handle, error_label, get_clearcase_views,
      get_resource_status, login, logout, add_view, update_view,
      rename_resource, remove_resource, open_file;
    match goal with
    | |- exists args done,
          try_catch
            (bind (executeClearToolCommand _ ?a)
               (fun p => bind _
                  (fun output => ret (text_content (@?d output)))))
            _ _ _ = _ =>
        exists a, d
    end;
    apply single_call_run.
Qed.

(** The four ways through [create_or_set_ucm_activity]. *)
Lemma activity_run (activityId activityHeadline : option str)
  (setActivity : bool) :
  invoke env (CreateOrSetUcmActivity activityId activityHeadline setActivity)
  = match Js.if_truthy activityId, Js.if_truthy activityHeadline with
    | Some id, _ =>
        let c := env 0 cleartool [`"setactivity"; id] in
        (call_trace env 0 cleartool [`"setactivity"; id],
         Fulfilled
           (text_content
              (if exits_zero c
               then `"Activity " ++ id ++ `" set successfully."
               else `"Error creating or setting activity: "
                    ++ failure_text c)))
    | None, Some headline =>
        let made := env 0 cleartool [`"mkactivity"; `"-headline"; headline] in
        let id := hd [] (Js.split Js.LF (child_output made)) in
        let set := env 1 cleartool [`"setactivity"; id] in
        (call_trace env 0 cleartool [`"mkactivity"; `"-headline"; headline]
         ++ (if exits_zero made && setActivity
             then call_trace env 1 cleartool [`"setactivity"; id] else []),
         Fulfilled
           (text_content
              (if exits_zero made
               then if setActivity && negb (exits_zero set)
                    then `"Error creating or setting activity: "
                         ++ failure_text set
                    else `"Activity created successfully:" ++ LF
                         ++ child_output made
               else `"Error creating or setting activity: "
                    ++ failure_text made)))
    | None, None =>
        ([],
         Fulfilled
           (text_content
              (`"Error creating or setting activity: "
               ++ `"Either activityId or activityHeadline must be provided.")))
    end.
Proof.
  unfold invoke, handle, create_or_set_ucm_activity.
  destruct (Js.if_truthy activityId) as [id|].
  - apply (single_call_run [`"setactivity"; id]
             (fun _ => `"Activity " ++ id ++ `" set successfully.")).
  - destruct (Js.if_truthy activityHeadline) as [headline|]; [|reflexivity].
    unfold try_catch, bind. rewrite executeClearToolCommand_run.
    unfold await at 1. rewrite child_promise_settled.
    cbn [app List.length children].
    destruct (exits_zero _) eqn:Hmade; [|rewrite app_nil_r; reflexivity].
    destruct setActivity; cbn [andb negb].
    + rewrite executeClearToolCommand_run.
      unfold await. rewrite child_promise_settled.
      cbn [call_trace children List.length app].
      destruct (exits_zero (env 1 _ _)); reflexivity.
    + rewrite app_nil_r; reflexivity.
Qed.

End HandlerRuns.

(** ** Failures at the handler boundary *)



(** ** The contract of the helper *)

(** C2, as the code has it.  The helper logs the command, spawns one
    child and returns a promise that settles when the child closes.  With
    exit code zero the promise resolves with the accumulated output
    without the white space at either end; with any other code it rejects
    with the accumulated error text without the white space at either
    end, or, when nothing is left of it, with a message that states the
    exit code. *)
Theorem executeClearToolCommand_outcome (env : Env) (tr : Trace)
  (command : str) (args : list str) (child : ChildRun) :
  env (List.length (children tr)) command args = child ->
  exists p : Promise str,
    executeClearToolCommand command args env tr
    = (tr ++ [ ConsoleLog (`"Executing command: " ++ command ++ SP
                           ++ Js.join SP args);
               Spawn command args child ],
       Fulfilled p) /\
    settled_at p = close_at child /\
    trimmed_of (stdout_text (events child))
      (Js.trim (stdout_text (events child))) /\
    trimmed_of (stderr_text (events child))
      (Js.trim (stderr_text (events child))) /\
    (close_code child = Some 0%Z ->
     settled p = Fulfilled (Js.trim (stdout_text (events child)))) /\
    (close_code child <> Some 0%Z ->
     Js.trim (stderr_text (events child)) <> [] ->
     settled p = Rejected (mkError (Js.trim (stderr_text (events child))))) /\
    (close_code child <> Some 0%Z ->
     Js.trim (stderr_text (events child)) = [] ->
     settled p
     = Rejected (mkError (`"Process exited with code "
                          ++ code_text (close_code child)))).
Proof.
  intros <-. eexists; split; [apply executeClearToolCommand_run|].
  set (child := env _ _ _).
  split; [reflexivity|].
  split; [apply trim_trimmed|]. split; [apply trim_trimmed|].
  rewrite child_promise_settled.
  unfold exits_zero, child_output, failure_text.
  repeat split.
  - intros ->; reflexivity.
  - intros Hcode Herr.
    destruct (close_code child) as [[|q|q]|]; try congruence;
      destruct (Js.trim (stderr_text (events child))); congruence.
  - intros Hcode ->.
    destruct (close_code child) as [[|q|q]|]; congruence.
Qed.

Lemma executeClearToolCommand_outcome_witness :
  (exists p : Promise str,
     snd (executeClearToolCommand cleartool [`"lsview"] env_padded [])
     = Fulfilled p /\
     settled p = Fulfilled `"view_1") /\
  (exists p : Promise str,
     snd (executeClearToolCommand cleartool [`"lsview"] env_padded_failure [])
     = Fulfilled p /\
     settled p = Rejected (mkError `"denied")).
Proof.
  split.
  - destruct (executeClearToolCommand_outcome env_padded [] cleartool
                [`"lsview"] eq_refl)
      as [p [Hrun [_ [_ [_ [Hzero _]]]]]].
    exists p; split.
    + rewrite Hrun; reflexivity.
    + rewrite Hzero; reflexivity.
  - destruct (executeClearToolCommand_outcome env_padded_failure [] cleartool
                [`"lsview"] eq_refl)
      as [p [Hrun [_ [_ [_ [_ [Hfail _]]]]]]].
    exists p; split.
    + rewrite Hrun; reflexivity.
    + rewrite Hfail; [reflexivity|discriminate|discriminate].
Defined.

(** C2, as the specification words it, fails: the helper does not trim
    at the right end only.  Output and error text lose their leading
    white space too. *)
Lemma executeClearToolCommand_not_right_trim :
  (Js.trimEnd (stdout_text (events padded_child)) = `"  view_1" /\
   snd (executeClearToolCommand cleartool [`"lsview"] env_padded [])
   = Fulfilled (mkPromise 0 (Fulfilled `"view_1")) /\
   snd (executeClearToolCommand cleartool [`"lsview"] env_padded [])
   <> Fulfilled
        (mkPromise 0
           (Fulfilled (Js.trimEnd (stdout_text (events padded_child)))))) /\
  (Js.trimEnd (stderr_text (events padded_failure)) = `" denied" /\
   snd (executeClearToolCommand cleartool [`"lsview"] env_padded_failure [])
   = Fulfilled (mkPromise 0 (Rejected (mkError `"denied"))) /\
   snd (executeClearToolCommand cleartool [`"lsview"] env_padded_failure [])
   <> Fulfilled
        (mkPromise 0
           (Rejected
              (mkError (Js.trimEnd (stderr_text (events padded_failure))))))).
Proof.
  repeat split; try reflexivity; vm_compute; discriminate.
Qed.

(** ** Batch tools *)

(** C3.  A checkout of a non-empty list of paths whose children all exit
    with code zero spawns the binary once per path, in the order of the
    request, each time with an argument vector of its own, and returns
    one text block: the label, a line feed, and the trimmed outputs of the
    children joined by line feeds in the order of the paths. *)
Theorem checkout_resources_all_succeed (env : Env)
  (resourcePaths : list str) (comment : option str) (commentArg : str) :
  resourcePaths <> [] ->
  commentArg = match comment with
               | Some (c :: s) => escape_quotes (c :: s)
               | _ => `"automated checkout"
               end ->
  (forall i path,
     nth_error resourcePaths i = Some path ->
     close_code (env i cleartool [`"checkout"; `"-c"; commentArg; path])
     = Some 0%Z) ->
  spawned (fst (invoke env (CheckoutResources resourcePaths comment)))
  = map (fun path => (cleartool, [`"checkout"; `"-c"; commentArg; path]))
      resourcePaths /\
  children (fst (invoke env (CheckoutResources resourcePaths comment)))
  = map (fun ip =>
           env (fst ip) cleartool [`"checkout"; `"-c"; commentArg; snd ip])
      (combine (seq 0 (List.length resourcePaths)) resourcePaths) /\
  snd (invoke env (CheckoutResources resourcePaths comment))
  = Fulfilled
      {| content :=
           [ {| type := `"text";
                text := `"Checkout results:" ++ LF
                        ++ Js.join LF
                             (map child_output
                                (children
                                   (fst (invoke env
                                           (CheckoutResources resourcePaths
                                              comment))))) |} ] |}.
Proof.
  intros _ Hcomment Hzero.
  rewrite (invoke_batch env (CheckoutResources resourcePaths comment) eq_refl).
  cbn [fst snd].
  assert (Hargv : batch_argv (CheckoutResources resourcePaths comment)
                  = fun path => [`"checkout"; `"-c"; commentArg; path]).
  { subst commentArg; unfold batch_argv, Js.if_truthy.
    destruct comment as [[|c s]|]; reflexivity. }
  rewrite Hargv.
  rewrite spawned_batch_trace, children_batch_trace.
  split; [reflexivity|]. split; [reflexivity|].
  destruct (Promise_all_children
              (map (fun ip =>
                      env (fst ip) cleartool
                        [`"checkout"; `"-c"; commentArg; snd ip])
                 (combine (seq 0 (List.length resourcePaths)) resourcePaths)))
    as [[_ [Hs _]]|[c [Hin [Hz _]]]].
  - rewrite Hs; reflexivity.
  - exfalso. apply in_map_iff in Hin; destruct Hin as [[i path] [<- Hip]].
    cbn [fst snd] in Hz.
    assert (Hnth : nth_error resourcePaths i = Some path).
    { apply in_combine_seq in Hip. now rewrite Nat.sub_0_r in Hip. }
    unfold exits_zero in Hz. rewrite (Hzero i path Hnth) in Hz. discriminate.
Qed.

Lemma checkout_resources_all_succeed_witness :
  snd (invoke env_echo (CheckoutResources [`"/a"; `"/b"] (Some `"fix")))
  = Fulfilled
      (text_content
         (`"Checkout results:" ++ LF ++ `"Checked out /a" ++ LF
          ++ `"Checked out /b")) /\
  spawned
    (fst (invoke env_echo (CheckoutResources [`"/a"; `"/b"] (Some `"fix"))))
  = [ (cleartool, [`"checkout"; `"-c"; `"fix"; `"/a"]);
      (cleartool, [`"checkout"; `"-c"; `"fix"; `"/b"]) ].
Proof.
  destruct (@checkout_resources_all_succeed env_echo [`"/a"; `"/b"]
              (Some `"fix") `"fix")
    as [Hspawned [Hchildren Htext]].
  - discriminate.
  - reflexivity.
  - intros i path _; reflexivity.
  - split.
    + rewrite Htext, Hchildren; reflexivity.
    + rewrite Hspawned; reflexivity.
Defined.


(** C4, as the specification words it, fails: the handler of
    [create_or_set_ucm_activity] is not a batch handler, yet it calls the
    helper twice when it creates an activity and then sets it, and never
    when it is given neither an identifier nor a headline. *)
Lemma activity_handler_calls_twice_or_never :
  batch_paths (CreateOrSetUcmActivity None (Some `"fix login") true) = None /\
  List.length
    (spawned
       (fst (invoke env_echo
               (CreateOrSetUcmActivity None (Some `"fix login") true)))) = 2 /\
  List.length
    (spawned
       (fst (invoke env_echo (CreateOrSetUcmActivity None None true)))) = 0.
Proof. repeat split. Qed.

(** C4, as the code has it.  A batch tool calls the helper once per path,
    in the order of the request, whatever becomes of the other calls, and
    when all succeed the outputs are reported in that order.  The tool
    [create_or_set_ucm_activity] calls it once to set an activity, once or
    twice to create one (the second call sets it, when asked to and when
    the creation succeeded), and not at all when it has neither an
    identifier nor a headline.  Every other tool calls it exactly once. *)
Theorem helper_calls_per_invocation (env : Env) (req : Request) :
  (forall paths, batch_paths req = Some paths ->
     exists argv : str -> list str,
       (forall path, last (argv path) [] = path) /\
       spawned (fst (invoke env req))
       = map (fun path => (cleartool, argv path)) paths /\
       children (fst (invoke env req))
       = map (fun ip => env (fst ip) cleartool (argv (snd ip)))
           (combine (seq 0 (List.length paths)) paths) /\
       ((forall c, In c (children (fst (invoke env req))) ->
                   exits_zero c = true) ->
        snd (invoke env req)
        = Fulfilled
            (text_content
               (results_label req ++ LF
                ++ Js.join LF
                     (map child_output (children (fst (invoke env req)))))))) /\
  (forall activityId activityHeadline setActivity,
     req = CreateOrSetUcmActivity activityId activityHeadline setActivity ->
     List.length (spawned (fst (invoke env req)))
     = match Js.if_truthy activityId, Js.if_truthy activityHeadline with
       | Some _, _ => 1
       | None, Some headline =>
           if exits_zero
                (env 0 cleartool [`"mkactivity"; `"-headline"; headline])
              && setActivity
           then 2 else 1
       | None, None => 0
       end) /\
  (batch_paths req = None -> is_activity req = false ->
   List.length (spawned (fst (invoke env req))) = 1).
Proof.
  split; [|split].
  - intros paths Hb. exists (batch_argv req).
    rewrite (invoke_batch env req Hb); cbn [fst snd].
    rewrite spawned_batch_trace, children_batch_trace.
    split; [intros path; eapply batch_argv_last; eauto|].
    split; [reflexivity|]. split; [reflexivity|].
    intros Hall.
    destruct (Promise_all_children
                (map (fun ip => env (fst ip) cleartool (batch_argv req (snd ip)))
                   (combine (seq 0 (List.length paths)) paths)))
      as [[_ [Hs _]]|[c [Hin [Hz _]]]].
    + rewrite Hs; reflexivity.
    + rewrite (Hall c Hin) in Hz; discriminate.
  - intros activityId activityHeadline setActivity ->.
    rewrite activity_run.
    destruct (Js.if_truthy activityId); [reflexivity|].
    destruct (Js.if_truthy activityHeadline) as [headline|]; [|reflexivity].
    cbn [fst]. rewrite spawned_app.
    destruct (exits_zero _ && setActivity); reflexivity.
  - intros Hb Ha. destruct (invoke_single env req Hb Ha) as [args [done ->]].
    reflexivity.
Qed.

Lemma helper_calls_per_invocation_witness :
  last_args
    (fst (invoke env_echo (UndoCheckout [`"/a"; `"/b"; `"/c"] None)))
  = [`"/a"; `"/b"; `"/c"] /\
  snd (invoke env_echo (HijackResources [`"/a"; `"/b"]))
  = Fulfilled
      (text_content
         (`"Hijack results:" ++ LF ++ `"Checked out /a" ++ LF
          ++ `"Checked out /b")) /\
  List.length
    (spawned
       (fst (invoke env_echo
               (CreateOrSetUcmActivity None (Some `"fix login") true)))) = 2 /\
  List.length (spawned (fst (invoke env_echo Logout))) = 1.
Proof.
  split; [|split; [|split]].
  - destruct (helper_calls_per_invocation env_echo
                (UndoCheckout [`"/a"; `"/b"; `"/c"] None)) as [Hbatch _].
    destruct (Hbatch _ eq_refl) as [argv [Hlast [Hspawned _]]].
    unfold last_args. rewrite Hspawned. simpl. now rewrite !Hlast.
  - destruct (helper_calls_per_invocation env_echo
                (HijackResources [`"/a"; `"/b"])) as [Hbatch _].
    destruct (Hbatch _ eq_refl) as [argv [_ [_ [_ Htext]]]].
    rewrite Htext; [reflexivity|].
    intros c Hc; vm_compute in Hc.
    destruct Hc as [<-|[<-|[]]]; reflexivity.
  - destruct (helper_calls_per_invocation env_echo
                (CreateOrSetUcmActivity None (Some `"fix login") true))
      as [_ [Hactivity _]].
    rewrite (Hactivity _ _ _ eq_refl); reflexivity.
  - destruct (helper_calls_per_invocation env_echo Logout) as [_ [_ Hsingle]].
    apply Hsingle; reflexivity.
Defined.

(** ** The registry *)

(** C5, as the specification words it, fails: the file registers sixteen
    tools, not twenty-one. *)
Lemma registered_tools_not_twenty_one :
  List.length registered_tools <> 21.
Proof. discriminate. Qed.

(** C5, as the code has it.  Sixteen tools are registered, under sixteen
    different names: listing views, describing a resource, creating or
    setting an activity, checkout, undo of a checkout, checkin, login,
    logout, adding and updating a view, adding resources, hijack and its
    undo, rename, remove, and open.  Every request is for one of them, and
    the open tool runs the same command as the describe tool. *)
Theorem registry_has_sixteen_tools :
  List.length registered_tools = 16 /\
  map tool_name registered_tools
  = [ "get_clearcase_views"; "get_resource_status";
      "create_or_set_ucm_activity"; "checkout_resources"; "undo_checkout";
      "checkin_resources"; "login"; "logout"; "add_view"; "update_view";
      "add_resources"; "hijack_resources"; "undo_hijack"; "rename_resource";
      "remove_resource"; "open_file" ]%string /\
  NoDup (map tool_name registered_tools) /\
  (forall req, In (operation req) (map tool_name registered_tools)) /\
  (forall name, In name (map tool_name registered_tools) ->
                exists req, operation req = name) /\
  (forall env path,
     spawned (fst (invoke env (OpenFile path)))
     = [(cleartool, [`"describe"; path])] /\
     spawned (fst (invoke env (GetResourceStatus path)))
     = [(cleartool, [`"describe"; path])]).
Proof.
  split; [reflexivity|]. split; [reflexivity|]. split; [|split; [|split]].
  - cbn [map registered_tools tool_name].
    repeat (constructor; [cbn [In]; intuition discriminate|]). constructor.
  - intros req; destruct req; cbn; tauto.
  - cbn [map registered_tools tool_name In]. intros name H.
    repeat (destruct H as [<-|H]);
      [ exists GetClearcaseViews | exists (GetResourceStatus [])
      | exists (CreateOrSetUcmActivity None None false)
      | exists (CheckoutResources [] None) | exists (UndoCheckout [] None)
      | exists (CheckinResources [] None None) | exists (Login [] [] [])
      | exists Logout | exists (AddView []) | exists (UpdateView [])
      | exists (AddResources [] None) | exists (HijackResources [])
      | exists (UndoHijack []) | exists (RenameResource [] [])
      | exists (RemoveResource []) | exists (OpenFile []) | destruct H ];
      reflexivity.
  - intros env path; unfold invoke, handle, open_file, get_resource_status.
    rewrite !single_call_run. split; reflexivity.
Qed.

(** ** Validation of the activity parameters *)

(** C6.  With neither an identifier nor a headline the activity tool
    spawns nothing (its trace is empty) and returns, as a normal response
    of one text block, its error label followed by the message of the
    validation error thrown by the handler itself. *)
Theorem activity_without_id_or_headline (env : Env) (setActivity : bool) :
  invoke env (CreateOrSetUcmActivity None None setActivity)
  = ([],
     Fulfilled
       {| content :=
            [ {| type := `"text";
                 text := `"Error creating or setting activity: "
                         ++ `"Either activityId or activityHeadline must be provided."
              |} ] |}).
Proof.
  rewrite activity_run. cbn [Js.if_truthy].
  reflexivity.
Qed.

(** ** Argument vectors *)

(** C7.  For each path, checkin is given the vector that starts with
    checkin, goes on with the identical flag exactly when
    [checkinIdentical] is true, then the comment flag and its value (the
    escaped comment, or the default comment when there is none), and ends
    with the path. *)
Theorem checkin_argument_vector (env : Env) (resourcePaths : list str)
  (comment : option str) (checkinIdentical : option bool) :
  spawned
    (fst (invoke env
            (CheckinResources resourcePaths comment checkinIdentical)))
  = map (fun path =>
           (cleartool,
            [`"checkin"]
            ++ match checkinIdentical with
               | Some true => [`"-identical"]
               | Some false | None => []
               end
            ++ [`"-c";
                match comment with
                | Some (c :: s) => escape_quotes (c :: s)
                | Some [] | None => `"automated checkin"
                end]
            ++ [path]))
      resourcePaths.
Proof.
  rewrite (invoke_batch env
             (CheckinResources resourcePaths comment checkinIdentical) eq_refl).
  cbn [fst]. rewrite spawned_batch_trace.
  apply map_ext; intros path.
  unfold batch_argv, Js.truthy_flag, Js.if_truthy.
  destruct checkinIdentical as [[|]|]; destruct comment as [[|c s]|];
    reflexivity.
Qed.

(** C8.  When the comment of a checkout, a checkin or an add contains a
    double quote, the value given to the comment flag, for every path, is
    the comment with a backslash put before each of its double quotes. *)
Theorem comment_quotes_are_escaped (env : Env) (resourcePaths : list str)
  (comment : str) (checkinIdentical : option bool) :
  In Js.quote comment ->
  exists escaped : str,
    quotes_escaped comment escaped /\
    spawned (fst (invoke env (CheckoutResources resourcePaths (Some comment))))
    = map (fun path => (cleartool, [`"checkout"; `"-c"; escaped; path]))
        resourcePaths /\
    spawned
      (fst (invoke env
              (CheckinResources resourcePaths (Some comment)
                 checkinIdentical)))
    = map (fun path =>
             (cleartool,
              [`"checkin"]
              ++ match checkinIdentical with
                 | Some true => [`"-identical"]
                 | Some false | None => []
                 end
              ++ [`"-c"; escaped; path]))
        resourcePaths /\
    spawned (fst (invoke env (AddResources resourcePaths (Some comment))))
    = map (fun path => (cleartool, [`"mkelem"; `"-c"; escaped; path]))
        resourcePaths.
Proof.
  intros Hquote. exists (escape_quotes comment).
  split; [apply escape_quotes_escaped|].
  destruct comment as [|c s]; [destruct Hquote|].
  rewrite (invoke_batch env (CheckoutResources _ _) eq_refl),
    (invoke_batch env (CheckinResources _ _ _) eq_refl),
    (invoke_batch env (AddResources _ _) eq_refl).
  cbn [fst]. rewrite !spawned_batch_trace.
  repeat split; apply map_ext; intros path; try reflexivity.
  unfold batch_argv, Js.truthy_flag, Js.if_truthy.
  destruct checkinIdentical as [[|]|]; reflexivity.
Qed.

Lemma comment_quotes_are_escaped_witness :
  spawned
    (fst (invoke env_echo (CheckoutResources [`"/a"] (Some quoted_comment))))
  = [ (cleartool,
       [`"checkout"; `"-c";
        `"say " ++ [Js.backslash; Js.quote] ++ `"hi"
        ++ [Js.backslash; Js.quote];
        `"/a"]) ].
Proof.
  destruct (@comment_quotes_are_escaped env_echo [`"/a"] quoted_comment None)
    as [escaped [Hescaped [Hcheckout _]]].
  - vm_compute; tauto.
  - rewrite Hcheckout.
    rewrite (quotes_escaped_functional Hescaped
               (escape_quotes_escaped quoted_comment)).
    reflexivity.
Defined.

(** C9.  For each path, the undo of a checkout is given uncheckout, then
    the keep flag when [keepChanges] is true and the rm flag when it is
    false or absent, then the path. *)
Theorem undo_checkout_argument_vector (env : Env) (resourcePaths : list str)
  (keepChanges : option bool) :
  spawned (fst (invoke env (UndoCheckout resourcePaths keepChanges)))
  = map (fun path =>
           (cleartool,
            [`"uncheckout";
             match keepChanges with
             | Some true => `"-keep"
             | Some false | None => `"-rm"
             end;
             path]))
      resourcePaths.
Proof.
  rewrite (invoke_batch env (UndoCheckout resourcePaths keepChanges) eq_refl).
  cbn [fst]. rewrite spawned_batch_trace.
  apply map_ext; intros path.
  unfold batch_argv, Js.truthy_flag.
  destruct keepChanges as [[|]|]; reflexivity.
Qed.

(** C10.  The value given to the comment flag by a checkout, a checkin
    and an add is never the empty string, and when the comment is absent
    or empty it is the default comment of the tool. *)
Theorem comment_defaults (env : Env) (resourcePaths : list str)
  (comment : option str) (checkinIdentical : option bool) :
  exists checkoutComment checkinComment addComment : str,
    (checkoutComment <> [] /\ checkinComment <> [] /\ addComment <> []) /\
    (comment = None \/ comment = Some [] ->
     checkoutComment = `"automated checkout" /\
     checkinComment = `"automated checkin" /\
     addComment = `"automated add") /\
    spawned (fst (invoke env (CheckoutResources resourcePaths comment)))
    = map (fun path =>
             (cleartool, [`"checkout"; `"-c"; checkoutComment; path]))
        resourcePaths /\
    spawned
      (fst (invoke env
              (CheckinResources resourcePaths comment checkinIdentical)))
    = map (fun path =>
             (cleartool,
              [`"checkin"]
              ++ match checkinIdentical with
                 | Some true => [`"-identical"]
                 | Some false | None => []
                 end
              ++ [`"-c"; checkinComment; path]))
        resourcePaths /\
    spawned (fst (invoke env (AddResources resourcePaths comment)))
    = map (fun path => (cleartool, [`"mkelem"; `"-c"; addComment; path]))
        resourcePaths.
Proof.
  rewrite (invoke_batch env (CheckoutResources _ _) eq_refl),
    (invoke_batch env (CheckinResources _ _ _) eq_refl),
    (invoke_batch env (AddResources _ _) eq_refl).
  cbn [fst]. rewrite !spawned_batch_trace.
  unfold batch_argv, Js.truthy_flag, Js.if_truthy.
  destruct comment as [[|c s]|].
  - exists `"automated checkout", `"automated checkin", `"automated add".
    split; [repeat split; discriminate|]. split; [tauto|].
    repeat split; apply map_ext; intros path; try reflexivity.
    destruct checkinIdentical as [[|]|]; reflexivity.
  - exists (escape_quotes (c :: s)), (escape_quotes (c :: s)),
      (escape_quotes (c :: s)).
    split; [repeat split; apply escape_quotes_nonempty|].
    split; [intros [H|H]; discriminate|].
    repeat split; apply map_ext; intros path; try reflexivity.
    destruct checkinIdentical as [[|]|]; reflexivity.
  - exists `"automated checkout", `"automated checkin", `"automated add".
    split; [repeat split; discriminate|]. split; [tauto|].
    repeat split; apply map_ext; intros path; try reflexivity.
    destruct checkinIdentical as [[|]|]; reflexivity.
Qed.

Lemma comment_defaults_witness :
  spawned (fst (invoke env_echo (CheckoutResources [`"/a"] (Some []))))
  = [ (cleartool, [`"checkout"; `"-c"; `"automated checkout"; `"/a"]) ] /\
  spawned (fst (invoke env_echo (CheckinResources [`"/a"] None (Some true))))
  = [ (cleartool,
       [`"checkin"; `"-identical"; `"-c"; `"automated checkin"; `"/a"]) ] /\
  spawned (fst (invoke env_echo (AddResources [`"/a"] None)))
  = [ (cleartool, [`"mkelem"; `"-c"; `"automated add"; `"/a"]) ].
Proof.
  split; [|split].
  - destruct (comment_defaults env_echo [`"/a"] (Some []) None)
      as [co [ci [ad [_ [Hdefault [Hcheckout _]]]]]].
    destruct Hdefault as [-> _]; [right; reflexivity|].
    exact Hcheckout.
  - destruct (comment_defaults env_echo [`"/a"] None (Some true))
      as [co [ci [ad [_ [Hdefault [_ [Hcheckin _]]]]]]].
    destruct Hdefault as [_ [-> _]]; [left; reflexivity|].
    exact Hcheckin.
  - destruct (comment_defaults env_echo [`"/a"] None None)
      as [co [ci [ad [_ [Hdefault [_ [_ Hadd]]]]]]].
    destruct Hdefault as [_ [_ ->]]; [left; reflexivity|].
    exact Hadd.
Defined.

(** ** Further facts about strings *)

Section MoreStringFacts.

Lemma trimStart_nil_iff (s : str) :
  Js.trimStart s = [] <-> forallb Js.is_white_space s = true.
Proof.
  induction s as [|c s IH]; simpl; [tauto|].
  destruct (Js.is_white_space c); simpl; [exact IH|].
  split; discriminate.
Qed.

Lemma trimStart_fixed (s : str) :
  (forall c t, s = c :: t -> Js.is_white_space c = false) ->
  Js.trimStart s = s.
Proof.
  destruct s as [|c t]; simpl; auto.
  intros H; now rewrite (H c t eq_refl).
Qed.

Lemma trimEnd_fixed (s : str) :
  (forall c t, s = t ++ [c] -> Js.is_white_space c = false) ->
  Js.trimEnd s = s.
Proof.
  intros H; unfold Js.trimEnd.
  rewrite trimStart_fixed; [apply rev_involutive|].
  intros c t Hrev. apply (H c (rev t)).
  rewrite <- (rev_involutive s), Hrev; reflexivity.
Qed.

Lemma trim_nil_iff (s : str) :
  Js.trim s = [] <-> forallb Js.is_white_space s = true.
Proof.
  unfold Js.trim, Js.trimEnd; split.
  - intros H. apply trimStart_nil_iff.
    apply (f_equal (@rev N)) in H; rewrite rev_involutive in H; simpl in H.
    apply trimStart_nil_iff in H. rewrite forallb_rev in H.
    destruct (Js.trimStart s) as [|c t] eqn:Hs; auto.
    simpl in H. rewrite (trimStart_head _ Hs) in H; discriminate.
  - intros H. apply trimStart_nil_iff in H. now rewrite H.
Qed.

Lemma trim_idempotent (s : str) : Js.trim (Js.trim s) = Js.trim s.
Proof.
  destruct (trim_trimmed s) as [l [r [_ [_ [_ [Hhead Hlast]]]]]].
  unfold Js.trim at 1.
  rewrite (trimStart_fixed Hhead). apply trimEnd_fixed, Hlast.
Qed.

Lemma escape_quotes_without_quote (s : str) :
  ~ In Js.quote s -> escape_quotes s = s.
Proof.
  unfold escape_quotes; induction s as [|c s IH]; simpl; auto.
  intros H. destruct (N.eqb_spec c Js.quote) as [->|_]; [tauto|].
  simpl; f_equal; tauto.
Qed.

Lemma escape_quotes_head (s : str) (t : str) :
  escape_quotes s <> Js.quote :: t.
Proof.
  unfold escape_quotes; destruct s as [|c s]; simpl; [discriminate|].
  destruct (N.eqb_spec c Js.quote) as [->|Hc]; simpl; intros H;
    inversion H; congruence.
Qed.

Lemma escape_quotes_cons (c : N) (s : str) :
  escape_quotes (c :: s)
  = (if (c =? Js.quote)%N then [Js.backslash; Js.quote] else [c])
    ++ escape_quotes s.
Proof. reflexivity. Qed.

Lemma split_cons (sep c : N) (s : str) :
  Js.split sep (c :: s)
  = if (c =? sep)%N then [] :: Js.split sep s
    else (c :: hd [] (Js.split sep s)) :: tl (Js.split sep s).
Proof.
  simpl. destruct (c =? sep)%N; auto.
  destruct (Js.split sep s); reflexivity.
Qed.

(** The first piece of a split is the text before the first separator. *)
Lemma split_first_piece (sep : N) (s : str) :
  ~ In sep (hd [] (Js.split sep s)) /\
  (s = hd [] (Js.split sep s) \/
   exists rest, s = hd [] (Js.split sep s) ++ sep :: rest).
Proof.
  induction s as [|c s [IHno IHs]]; [simpl; tauto|].
  rewrite split_cons.
  destruct (N.eqb_spec c sep) as [->|Hc]; cbn [hd].
  - split; [tauto|]. right; exists s; reflexivity.
  - split.
    + intros [H|H]; [congruence|tauto].
    + destruct IHs as [IHs|[rest IHs]].
      * left; simpl; f_equal; exact IHs.
      * right; exists rest; simpl; f_equal; exact IHs.
Qed.

Lemma split_without_separator (sep : N) (s : str) :
  ~ In sep s -> Js.split sep s = [s].
Proof.
  induction s as [|c s IH]; simpl; auto.
  intros H. destruct (N.eqb_spec c sep) as [->|_]; [tauto|].
  rewrite IH by tauto; reflexivity.
Qed.


End MoreStringFacts.

(** ** Further facts about the runs *)

Section MoreHandlerRuns.

Variable env : Env.

Lemma invoke_single_labelled (req : Request) :
  batch_paths req = None -> is_activity req = false ->
  exists args : list str,
    invoke env req
    = (call_trace env 0 cleartool args,
       Fulfilled
         (text_content
            (if exits_zero (env 0 cleartool args)
             then done_label req ++ LF ++ child_output (env 0 cleartool args)
             else error_label req ++ failure_text (env 0 cleartool args)))).
Proof.
  intros Hb Ha; destruct req; try discriminate;
    unfold invoke, handle, error_label, done_label, get_clearcase_views,
      get_resource_status, login, logout, add_view, update_view,
      rename_resource, remove_resource, open_file;
    match goal with
    | |- exists args,
          try_catch
            (bind (executeClearToolCommand _ ?a)
               (fun p => bind _
                  (fun output => ret (text_content (?l ++ LF ++ output)))))
            _ _ _ = _ =>
        exists a; apply (single_call_run env a (fun output => l ++ LF ++ output))
    end.
Qed.

Lemma well_logged_app (tr tr' : Trace) :
  well_logged tr -> well_logged tr' -> well_logged (tr ++ tr').
Proof.
  induction 1; intros H'; simpl; auto. constructor; auto.
Qed.

Lemma well_logged_call_trace (n : nat) (args : list str) :
  well_logged (call_trace env n cleartool args).
Proof. exact (wl_call args (env n cleartool args) wl_nil). Qed.

Lemma well_logged_batch_trace (n : nat) (argv : str -> list str)
  (paths : list str) :
  well_logged (batch_trace env n cleartool argv paths).
Proof.
  revert n; induction paths as [|path paths IH]; intros n; simpl.
  - constructor.
  - exact (wl_call (argv path) (env n cleartool (argv path)) (IH (S n))).
Qed.

Lemma Promise_all_nil :
  settled (Promise_all (@nil (Promise str))) = Fulfilled [].
Proof. reflexivity. Qed.

End MoreHandlerRuns.

(** ** Responses of the tools made of one call *)

(** X1.  A tool made of one call whose child exits with code zero answers
    with one text block: its success label, a line feed, and the trimmed
    output of the child. *)
Theorem single_call_success (env : Env) (req : Request) :
  batch_paths req = None -> is_activity req = false ->
  (forall c, In c (children (fst (invoke env req))) -> exits_zero c = true) ->
  exists c : ChildRun,
    children (fst (invoke env req)) = [c] /\
    snd (invoke env req)
    = Fulfilled
        {| content :=
             [ {| type := `"text";
                  text := done_label req ++ LF ++ child_output c |} ] |}.
Proof.
  intros Hb Ha Hok.
  destruct (invoke_single_labelled env req Hb Ha) as [args Hrun].
  rewrite Hrun in *; cbn [fst snd call_trace children] in *.
  exists (env 0 cleartool args); split; [reflexivity|].
  rewrite (Hok (env 0 cleartool args)) by (left; reflexivity).
  reflexivity.
Qed.

Lemma single_call_success_witness :
  snd (invoke env_padded GetClearcaseViews)
  = Fulfilled (text_content (`"Views:" ++ LF ++ `"view_1")).
Proof.
  destruct (@single_call_success env_padded GetClearcaseViews)
    as [c [Hc Htext]].
  - reflexivity.
  - reflexivity.
  - intros c Hc; vm_compute in Hc. destruct Hc as [<-|[]]; reflexivity.
  - rewrite Htext. injection Hc as <-. reflexivity.
Defined.

(** X2.  The commands of the tools no other statement spells out: views
    are listed with lsview, a login passes server, user and password
    behind their flags, a logout is logout, a view is added with mkview
    and updated with setcs -current, a rename is mv with the old and the
    new name, a removal is rmname, and hijack and unhijack take one path
    per call, in the order of the request. *)
Theorem remaining_argument_vectors (env : Env) :
  spawned (fst (invoke env GetClearcaseViews)) = [(cleartool, [`"lsview"])] /\
  (forall wanServer username password,
     spawned (fst (invoke env (Login wanServer username password)))
     = [(cleartool,
         [`"login"; `"-server"; wanServer; `"-user"; username;
          `"-password"; password])]) /\
  spawned (fst (invoke env Logout)) = [(cleartool, [`"logout"])] /\
  (forall viewPath,
     spawned (fst (invoke env (AddView viewPath)))
     = [(cleartool, [`"mkview"; viewPath])]) /\
  (forall viewPath,
     spawned (fst (invoke env (UpdateView viewPath)))
     = [(cleartool, [`"setcs"; `"-current"; viewPath])]) /\
  (forall resourcePath newName,
     spawned (fst (invoke env (RenameResource resourcePath newName)))
     = [(cleartool, [`"mv"; resourcePath; newName])]) /\
  (forall resourcePath,
     spawned (fst (invoke env (RemoveResource resourcePath)))
     = [(cleartool, [`"rmname"; resourcePath])]) /\
  (forall resourcePaths,
     spawned (fst (invoke env (HijackResources resourcePaths)))
     = map (fun path => (cleartool, [`"hijack"; path])) resourcePaths) /\
  (forall resourcePaths,
     spawned (fst (invoke env (UndoHijack resourcePaths)))
     = map (fun path => (cleartool, [`"unhijack"; path])) resourcePaths).
Proof.
  unfold invoke, handle, get_clearcase_views, login, logout, add_view,
    update_view, rename_resource, remove_resource, hijack_resources,
    undo_hijack.
  repeat match goal with |- _ /\ _ => split end; intros;
    first [ rewrite single_call_run; reflexivity
          | rewrite batch_call_run; cbn [fst];
            apply spawned_batch_trace ].
Qed.

(** ** The activity tool *)

(** X3.  A non-empty activity identifier decides alone: the tool runs
    setactivity with it and nothing else, whatever the headline and the
    set flag are, and when that child exits with code zero the text names
    the identifier and leaves the output of the child out. *)
Theorem activity_identifier_decides (env : Env) (activityId : str)
  (activityHeadline : option str) (setActivity : bool) :
  activityId <> [] ->
  invoke env
    (CreateOrSetUcmActivity (Some activityId) activityHeadline setActivity)
  = invoke env (CreateOrSetUcmActivity (Some activityId) None false) /\
  spawned
    (fst (invoke env
            (CreateOrSetUcmActivity (Some activityId) activityHeadline
               setActivity)))
  = [(cleartool, [`"setactivity"; activityId])] /\
  (exits_zero (env 0 cleartool [`"setactivity"; activityId]) = true ->
   snd (invoke env
          (CreateOrSetUcmActivity (Some activityId) activityHeadline
             setActivity))
   = Fulfilled
       (text_content (`"Activity " ++ activityId ++ `" set successfully."))).
Proof.
  intros Hid. rewrite !activity_run.
  destruct activityId as [|c s]; [congruence|]. cbn [Js.if_truthy].
  split; [reflexivity|]. split; [reflexivity|].
  cbn zeta; cbn [snd]. intros ->; reflexivity.
Qed.

Lemma activity_identifier_decides_witness :
  snd (invoke env_echo
         (CreateOrSetUcmActivity (Some `"act_7") (Some `"new work") true))
  = Fulfilled (text_content `"Activity act_7 set successfully.").
Proof.
  destruct (@activity_identifier_decides env_echo `"act_7"
              (Some `"new work") true) as [_ [_ Htext]].
  - discriminate.
  - rewrite Htext; reflexivity.
Defined.

(** X4.  An empty identifier or headline counts as an absent one; with
    both empty the tool spawns nothing and answers with its validation
    error. *)
Theorem activity_empty_strings_are_absent (env : Env)
  (activityId activityHeadline : option str) (setActivity : bool) :
  invoke env (CreateOrSetUcmActivity (Some []) activityHeadline setActivity)
  = invoke env (CreateOrSetUcmActivity None activityHeadline setActivity) /\
  invoke env (CreateOrSetUcmActivity activityId (Some []) setActivity)
  = invoke env (CreateOrSetUcmActivity activityId None setActivity) /\
  invoke env (CreateOrSetUcmActivity (Some []) (Some []) setActivity)
  = ([],
     Fulfilled
       (text_content
          (`"Error creating or setting activity: "
           ++ `"Either activityId or activityHeadline must be provided."))).
Proof.
  rewrite !activity_run. repeat split.
Qed.

(** X5.  When an activity is created from a headline and is to be set,
    and the creation exits with code zero, the tool then runs setactivity
    with the first line of the trimmed output of the creation: a text
    without line feed that is the whole output or is followed in it by a
    line feed. *)
Theorem created_activity_is_set_by_first_line (env : Env) (headline : str)
  (output : str) :
  headline <> [] ->
  exits_zero (env 0 cleartool [`"mkactivity"; `"-headline"; headline]) = true ->
  output
  = child_output (env 0 cleartool [`"mkactivity"; `"-headline"; headline]) ->
  exists activityId : str,
    spawned
      (fst (invoke env (CreateOrSetUcmActivity None (Some headline) true)))
    = [ (cleartool, [`"mkactivity"; `"-headline"; headline]);
        (cleartool, [`"setactivity"; activityId]) ] /\
    ~ In Js.LF activityId /\
    (output = activityId \/
     exists rest, output = activityId ++ Js.LF :: rest).
Proof.
  intros Hh Hmade ->. rewrite activity_run.
  destruct headline as [|c s]; [congruence|]. cbn [Js.if_truthy]. cbn zeta.
  rewrite Hmade. cbn [andb fst].
  eexists; split; [reflexivity|].
  apply split_first_piece.
Qed.

Lemma created_activity_is_set_by_first_line_witness :
  exists activityId : str,
    spawned
      (fst (invoke env_created_not_set
              (CreateOrSetUcmActivity None (Some `"fix login") true)))
    = [ (cleartool, [`"mkactivity"; `"-headline"; `"fix login"]);
        (cleartool, [`"setactivity"; activityId]) ] /\
    ~ In Js.LF activityId /\
    (`"fix_login_42" ++ LF ++ `"Created activity." = activityId \/
     exists rest,
       `"fix_login_42" ++ LF ++ `"Created activity."
       = activityId ++ Js.LF :: rest).
Proof.
  apply (@created_activity_is_set_by_first_line env_created_not_set
           `"fix login" (`"fix_login_42" ++ LF ++ `"Created activity."));
    [discriminate|reflexivity|reflexivity].
Defined.

(** X6.  When the creation of an activity exits with code zero and the
    setactivity that follows fails, the answer is the error label with
    what the second child reported, and says nothing of the activity
    that was created. *)
Theorem created_activity_not_set (env : Env) (headline : str)
  (made set : ChildRun) :
  headline <> [] ->
  made = env 0 cleartool [`"mkactivity"; `"-headline"; headline] ->
  set = env 1 cleartool
          [`"setactivity"; hd [] (Js.split Js.LF (child_output made))] ->
  exits_zero made = true ->
  exits_zero set = false ->
  children
    (fst (invoke env (CreateOrSetUcmActivity None (Some headline) true)))
  = [made; set] /\
  snd (invoke env (CreateOrSetUcmActivity None (Some headline) true))
  = Fulfilled
      (text_content
         (`"Error creating or setting activity: " ++ failure_text set)).
Proof.
  intros Hh -> -> Hmade Hset. rewrite activity_run.
  destruct headline as [|c s]; [congruence|]. cbn [Js.if_truthy]. cbn zeta.
  rewrite Hmade, Hset. cbn [andb negb fst snd].
  split; reflexivity.
Qed.

Lemma created_activity_not_set_witness :
  snd (invoke env_created_not_set
         (CreateOrSetUcmActivity None (Some `"fix login") true))
  = Fulfilled
      (text_content
         `"Error creating or setting activity: element is locked").
Proof.
  destruct (@created_activity_not_set env_created_not_set `"fix login"
              _ _ ltac:(discriminate) eq_refl eq_refl eq_refl eq_refl)
    as [_ Htext].
  rewrite Htext; reflexivity.
Defined.

(** ** Batches and traces *)

(** X7.  A batch tool given an empty list of paths logs nothing, spawns
    nothing and answers with its success label followed by a line feed. *)
Theorem empty_batch (env : Env) (req : Request) :
  batch_paths req = Some [] ->
  invoke env req
  = ([],
     Fulfilled
       {| content :=
            [ {| type := `"text"; text := results_label req ++ LF |} ] |}).
Proof.
  intros Hb. rewrite (invoke_batch env req Hb).
  cbn [batch_trace children map]. rewrite Promise_all_nil.
  cbn [Js.join]. rewrite app_nil_r. reflexivity.
Qed.

Lemma empty_batch_witness :
  invoke env_locked (CheckinResources [] (Some `"fix") (Some true))
  = ([], Fulfilled (text_content (`"Check-in results:" ++ LF))).
Proof. apply empty_batch; reflexivity. Defined.

(** X8.  In every invocation, every child spawned is a run of cleartool,
    and it is spawned right after a console line that holds its whole
    command, arguments included; nothing else is logged. *)
Theorem every_spawn_is_logged (env : Env) (req : Request) :
  well_logged (fst (invoke env req)).
Proof.
  destruct (batch_paths req) as [paths|] eqn:Hb.
  - rewrite (invoke_batch env req Hb). apply well_logged_batch_trace.
  - destruct (is_activity req) eqn:Ha.
    + destruct req; try discriminate. rewrite activity_run.
      destruct (Js.if_truthy activityId) as [id|];
        [apply well_logged_call_trace|].
      destruct (Js.if_truthy activityHeadline) as [headline|];
        [|constructor].
      cbn zeta; cbn [fst]. apply well_logged_app.
      * apply well_logged_call_trace.
      * destruct (exits_zero _ && setActivity);
          [apply well_logged_call_trace|constructor].
    + destruct (invoke_single env req Hb Ha) as [args [done ->]].
      apply well_logged_call_trace.
Qed.

(** X9.  The login tool writes the password it was given on the console,
    in clear, at the end of the line that logs its command. *)
Theorem login_logs_the_password (env : Env)
  (wanServer username password : str) :
  In (ConsoleLog
        (`"Executing command: cleartool login -server " ++ wanServer
         ++ `" -user " ++ username ++ `" -password " ++ password))
     (fst (invoke env (Login wanServer username password))).
Proof.
  unfold invoke, handle, login. rewrite single_call_run.
  cbn [fst call_trace]. left. reflexivity.
Qed.

(** ** More of the helper *)



(** X11.  The error a call of the helper rejects with never has an empty
    message. *)
Theorem rejection_message_is_never_empty (env : Env) (tr : Trace)
  (command : str) (args : list str) (p : Promise str) (e : Error) :
  snd (executeClearToolCommand command args env tr) = Fulfilled p ->
  settled p = Rejected e ->
  message e <> [].
Proof.
  rewrite executeClearToolCommand_run; cbn [snd].
  intros [= <-]. rewrite child_promise_settled.
  destruct (exits_zero _); [discriminate|].
  intros [= <-]; cbn [message]. unfold failure_text.
  destruct (Js.trim _); discriminate.
Qed.

Lemma rejection_message_is_never_empty_witness :
  message (mkError (`"Process exited with code null")) <> [].
Proof.
  apply (@rejection_message_is_never_empty env_killed [] cleartool
           [`"lsview"]
           (mkPromise 0 (Rejected (mkError `"Process exited with code null"))));
    reflexivity.
Defined.

(** X12.  For a child that does not exit with code zero: when its error
    stream held nothing but white space, the rejection states the exit
    code ([null] for a child ended by a signal); otherwise the rejection
    is the error text without the white space around it. *)
Theorem rejection_of_a_failed_child (env : Env) (tr : Trace)
  (command : str) (args : list str) (c : ChildRun) :
  c = env (List.length (children tr)) command args ->
  close_code c <> Some 0%Z ->
  exists p : Promise str,
    snd (executeClearToolCommand command args env tr) = Fulfilled p /\
    (forallb Js.is_white_space (stderr_text (events c)) = true ->
     settled p
     = Rejected
         (mkError (`"Process exited with code " ++ code_text (close_code c)))) /\
    (forallb Js.is_white_space (stderr_text (events c)) = false ->
     settled p = Rejected (mkError (Js.trim (stderr_text (events c))))).
Proof.
  intros -> Hcode. rewrite executeClearToolCommand_run; cbn [snd].
  eexists; split; [reflexivity|].
  rewrite child_promise_settled. unfold exits_zero, failure_text.
  set (c := env _ _ _) in *.
  assert (Hz : match close_code c with Some 0%Z => true | _ => false end
               = false).
  { destruct (close_code c) as [[|q|q]|]; congruence. }
  rewrite Hz. split; intros Hws.
  - apply trim_nil_iff in Hws. rewrite Hws; reflexivity.
  - destruct (Js.trim (stderr_text (events c))) eqn:Ht; [|reflexivity].
    apply trim_nil_iff in Ht. congruence.
Qed.

Lemma rejection_of_a_failed_child_witness :
  (exists p : Promise str,
     snd (executeClearToolCommand cleartool [`"lsview"] env_killed [])
     = Fulfilled p /\
     settled p = Rejected (mkError `"Process exited with code null")) /\
  (exists p : Promise str,
     snd (executeClearToolCommand cleartool [`"lsview"] env_padded_failure [])
     = Fulfilled p /\
     settled p = Rejected (mkError `"denied")).
Proof.
  split.
  - destruct (@rejection_of_a_failed_child env_killed [] cleartool
                [`"lsview"] killed_child eq_refl)
      as [p [Hrun [Hblank _]]]; [discriminate|].
    exists p; split; [exact Hrun|]. rewrite Hblank; reflexivity.
  - destruct (@rejection_of_a_failed_child env_padded_failure [] cleartool
                [`"lsview"] padded_failure eq_refl)
      as [p [Hrun [_ Htext]]]; [discriminate|].
    exists p; split; [exact Hrun|]. rewrite Htext; reflexivity.
Defined.

(** X13.  What a call of the helper resolves with is stable: trimming it
    again changes nothing, and it is the empty string exactly when the
    output stream held nothing but white space. *)
Theorem resolved_output_is_stable (env : Env) (tr : Trace)
  (command : str) (args : list str) (p : Promise str) (output : str) :
  snd (executeClearToolCommand command args env tr) = Fulfilled p ->
  settled p = Fulfilled output ->
  Js.trim output = output /\
  (output = [] <->
   forallb Js.is_white_space
     (stdout_text
        (events (env (List.length (children tr)) command args))) = true).
Proof.
  rewrite executeClearToolCommand_run; cbn [snd].
  intros [= <-]. rewrite child_promise_settled.
  destruct (exits_zero _); [|discriminate].
  intros [= <-]. unfold child_output. split.
  - apply trim_idempotent.
  - apply trim_nil_iff.
Qed.

Lemma resolved_output_is_stable_witness :
  Js.trim `"view_1" = `"view_1" /\
  (`"view_1" = [] <->
   forallb Js.is_white_space (stdout_text (events padded_child)) = true).
Proof.
  apply (@resolved_output_is_stable env_padded [] cleartool [`"lsview"]
           (mkPromise 0 (Fulfilled `"view_1")) `"view_1");
    reflexivity.
Defined.

(** ** More of the comment argument *)

(** X14.  A comment that is not empty and holds no double quote is given
    to the comment flag of checkout, checkin and add as it is. *)
Theorem comment_without_quote_is_verbatim (env : Env)
  (resourcePaths : list str) (comment : str)
  (checkinIdentical : option bool) :
  comment <> [] ->
  ~ In Js.quote comment ->
  spawned (fst (invoke env (CheckoutResources resourcePaths (Some comment))))
  = map (fun path => (cleartool, [`"checkout"; `"-c"; comment; path]))
      resourcePaths /\
  spawned
    (fst (invoke env
            (CheckinResources resourcePaths (Some comment) checkinIdentical)))
  = map (fun path =>
           (cleartool,
            [`"checkin"]
            ++ match checkinIdentical with
               | Some true => [`"-identical"]
               | Some false | None => []
               end
            ++ [`"-c"; comment; path]))
      resourcePaths /\
  spawned (fst (invoke env (AddResources resourcePaths (Some comment))))
  = map (fun path => (cleartool, [`"mkelem"; `"-c"; comment; path]))
      resourcePaths.
Proof.
  intros Hne Hquote.
  rewrite (invoke_batch env (CheckoutResources _ _) eq_refl),
    (invoke_batch env (CheckinResources _ _ _) eq_refl),
    (invoke_batch env (AddResources _ _) eq_refl).
  cbn [fst]. rewrite !spawned_batch_trace.
  destruct comment as [|c s]; [congruence|].
  unfold batch_argv, Js.truthy_flag, Js.if_truthy.
  rewrite (escape_quotes_without_quote _ Hquote).
  repeat split; apply map_ext; intros path; try reflexivity.
  destruct checkinIdentical as [[|]|]; reflexivity.
Qed.

Lemma comment_without_quote_is_verbatim_witness :
  spawned
    (fst (invoke env_echo (AddResources [`"/a"; `"/b"] (Some `"new file"))))
  = [ (cleartool, [`"mkelem"; `"-c"; `"new file"; `"/a"]);
      (cleartool, [`"mkelem"; `"-c"; `"new file"; `"/b"]) ].
Proof.
  destruct (@comment_without_quote_is_verbatim env_echo [`"/a"; `"/b"]
              `"new file" None) as [_ [_ Hadd]].
  - discriminate.
  - vm_compute. intuition discriminate.
  - exact Hadd.
Defined.

(** X15.  In an escaped comment every double quote comes right after a
    backslash. *)
Theorem escaped_quote_follows_backslash (comment before after : str) :
  escape_quotes comment = before ++ Js.quote :: after ->
  exists before', before = before' ++ [Js.backslash].
Proof.
  revert before; induction comment as [|c s IH]; intros before H.
  - destruct before; discriminate.
  - rewrite escape_quotes_cons in H.
    destruct (N.eqb_spec c Js.quote) as [->|Hc].
    + destruct before as [|x [|y before]]; cbn [app] in H.
      * discriminate.
      * injection H as <- _. exists []; reflexivity.
      * injection H as <- <- H.
        destruct (IH _ H) as [before' ->].
        exists (Js.backslash :: Js.quote :: before'); reflexivity.
    + destruct before as [|x before]; cbn [app] in H.
      * congruence.
      * injection H as <- H.
        destruct (IH _ H) as [before' ->].
        exists (c :: before'); reflexivity.
Qed.

Lemma escaped_quote_follows_backslash_witness :
  exists before', `"say \" = before' ++ [Js.backslash].
Proof.
  apply (@escaped_quote_follows_backslash quoted_comment `"say \"
           (`"hi" ++ [Js.backslash; Js.quote])).
  reflexivity.
Defined.

(** X16.  Escaping loses nothing: two different comments are never
    escaped to the same text. *)
Theorem escaped_comments_stay_distinct (comment comment' : str) :
  comment <> comment' ->
  escape_quotes comment <> escape_quotes comment'.
Proof.
  intros Hne Heq; apply Hne; clear Hne.
  revert comment' Heq; induction comment as [|a s IH];
    intros [|b t] Heq; auto.
  - symmetry in Heq. now apply escape_quotes_nonempty in Heq.
  - now apply escape_quotes_nonempty in Heq.
  - rewrite !escape_quotes_cons in Heq.
    destruct (N.eqb_spec a Js.quote) as [->|Ha];
      destruct (N.eqb_spec b Js.quote) as [->|Hb]; cbn [app] in Heq.
    + injection Heq as Heq. f_equal; auto.
    + injection Heq as _ Heq. symmetry in Heq.
      now apply escape_quotes_head in Heq.
    + injection Heq as _ Heq. now apply escape_quotes_head in Heq.
    + injection Heq as <- Heq. f_equal; auto.
Qed.

Lemma escaped_comments_stay_distinct_witness :
  escape_quotes quoted_comment
  <> escape_quotes (`"say \" ++ [Js.quote] ++ `"hi\" ++ [Js.quote]).
Proof.
  apply escaped_comments_stay_distinct. discriminate.
Defined.

(** ** Telling a failure from a success *)

Section ErrorPrefix.







End ErrorPrefix.



(** ** The configuration script *)

Section SetupRuns.

Variable w : Setup.World.


End SetupRuns.



